(** * The visited list of the HNSW index: [visited.ListSet]

    A shallow embedding of [adapters/repos/db/vector/hnsw/visited/list_set.go]
    and the properties of its five operations; after it, the class helper
    of the sorter, the removal of references from an object, and the
    aggregation of dates by rows.

    Conventions of the embedding.
    - A [uint8], a [uint64] and an [int] are integers of [Z]; every
      arithmetic operation of the source is followed by the wrap-around of
      its type ([wrap8], [wrap64], [wrap_int]).  [int] is 64 bits wide.
    - A slice [[]uint8] is a [list Z]; the nil slice is the empty list.
    - A run-time panic (index out of range, [make] with a length that the
      runtime refuses) is [None].  The runtime refuses a length that is
      negative or above [max_alloc], the limit of its allocator.  Below
      that limit an allocation is taken to succeed: running out of memory,
      a fatal error and no panic, is not part of the model.  What is
      proved in general of a call that allocates is proved under the
      hypothesis that the allocation, or the call, has returned, or for a
      length that the list has been given before. *)

From Stdlib Require Import ZArith Lia.
From stdpp Require Import base option list strings gmap.

Local Open Scope Z_scope.

(** ** Machine integers *)

Definition max_int : Z := 2 ^ 63 - 1.
Definition max_uint64 : Z := 2 ^ 64 - 1.

(** [maxAlloc] of the Go runtime on linux/amd64, in bytes: the heap has
    48 address bits. *)
Definition max_alloc : Z := 2 ^ 48.

Definition wrap8 (z : Z) : Z := z mod 2 ^ 8.
Definition wrap64 (z : Z) : Z := z mod 2 ^ 64.
Definition wrap_int (z : Z) : Z := (z + 2 ^ 63) mod 2 ^ 64 - 2 ^ 63.

Definition is_uint64 (z : Z) : Prop := 0 <= z < 2 ^ 64.
Definition is_int (z : Z) : Prop := - 2 ^ 63 <= z <= max_int.

(** ** Slices of bytes *)

(** [make([]uint8, n)]: a zeroed slice, or the panic of [makeslice] when
    [n] is negative or takes more than [max_alloc] bytes. *)
Definition make (n : Z) : option (list Z) :=
  if (0 <=? n) && (n <=? max_alloc) then Some (replicate (Z.to_nat n) 0)
  else None.

(** [copy(dst, src)]: the first [min (len dst) (len src)] elements of [dst]
    are overwritten. *)
Definition copy (dst src : list Z) : list Z :=
  take (length dst) src ++ drop (length src) dst.

(** [s[i]] as a value, with its bounds check. *)
Definition load (s : list Z) (i : Z) : option Z :=
  if (0 <=? i) && (i <? Z.of_nat (length s)) then s !! Z.to_nat i else None.

(** [s[i] = v], with its bounds check. *)
Definition store (s : list Z) (i v : Z) : option (list Z) :=
  if (0 <=? i) && (i <? Z.of_nat (length s)) then Some (<[Z.to_nat i := v]> s)
  else None.

(** [for i := range s { s[i] = 0 }] *)
Definition zero_range (s : list Z) : list Z :=
  foldl (fun acc i => <[i := 0]> acc) s (seq 0 (length s)).

(** ** The list set *)

Record ListSet : Type := mkListSet { set : list Z }.

Definition marker (l : ListSet) : option Z := load (set l) 0.
Definition stamps (l : ListSet) : list Z := tail (set l).

Definition Len (l : ListSet) : Z := wrap64 (wrap64 (Z.of_nat (length (set l))) - 1).

Definition Free (l : ListSet) : ListSet := mkListSet [].

Definition NewList (size : Z) : option ListSet :=
  s ← make (wrap_int (size + 1));
  s ← store s 0 1;
  Some (mkListSet s).

Definition Visit (node : Z) (l : ListSet) : option ListSet :=
  l ← (if Len l <=? node then
         newset ← make (wrap64 (node + 1024));
         Some (mkListSet (copy newset (set l)))
       else Some l);
  m ← load (set l) 0;
  s ← store (set l) (wrap64 (node + 1)) m;
  Some (mkListSet s).

Definition Visited (node : Z) (l : ListSet) : option (bool * ListSet) :=
  if node <? Len l then
    a ← load (set l) (wrap64 (node + 1));
    b ← load (set l) 0;
    Some (Z.eqb a b, l)
  else Some (false, l).

(** [Reset], line by line: the increment, the test, the full clear. *)
Definition Reset_incr (l : ListSet) : option ListSet :=
  m ← load (set l) 0;
  s ← store (set l) 0 (wrap8 (m + 1));
  Some (mkListSet s).

Definition overflowed (l : ListSet) : option bool :=
  m ← load (set l) 0;
  Some (m =? 0).

Definition Reset_clear (l : ListSet) : option ListSet :=
  s ← store (zero_range (set l)) 0 1;
  Some (mkListSet s).

Definition Reset (l : ListSet) : option ListSet :=
  l1 ← Reset_incr l;
  b ← overflowed l1;
  if (b : bool) then Reset_clear l1 else Some l1.


(** The result of [Visited] alone. *)
Definition isVisited (node : Z) (l : ListSet) : option bool :=
  fst <$> Visited node l.

(** ** Sequences of operations *)

Inductive Op : Type :=
  | OpVisit (node : Z)
  | OpVisited (node : Z)
  | OpReset.

Definition step (o : Op) (l : ListSet) : option ListSet :=
  match o with
  | OpVisit node => Visit node l
  | OpVisited node => snd <$> Visited node l
  | OpReset => Reset l
  end.

(** The arguments of a call are values of the parameter's type. *)
Definition op_ok (o : Op) : Prop :=
  match o with
  | OpVisit node | OpVisited node => is_uint64 node
  | OpReset => True
  end.

(** The states a program can hold: built by [NewList], then used through
    [Visit], [Visited] and [Reset], each call returning normally. *)
Inductive reachable : ListSet -> Prop :=
  | reachable_new size l :
      is_int size -> NewList size = Some l -> reachable l
  | reachable_step o l l' :
      reachable l -> op_ok o -> step o l = Some l' -> reachable l'.

(** [k] calls of [Reset] in a row. *)
Fixpoint Resets (k : nat) (l : ListSet) : option ListSet :=
  match k with
  | O => Some l
  | S k' => l' ← Reset l; Resets k' l'
  end.

(** A slice that backs a list in use: the marker slot exists, and the
    length is one a Go slice can have. *)
Definition in_use (l : ListSet) : Prop :=
  1 <= Z.of_nat (length (set l)) <= max_int.

(** The invariant of the reachable states: the marker is a positive byte
    and no slot holds more than the marker. *)
Definition inv (l : ListSet) : Prop :=
  in_use l /\
  exists m, set l !! 0%nat = Some m /\ 1 <= m <= 255 /\
            Forall (fun b => 0 <= b <= m) (set l).

(** The state [Reset] leaves: every stamp is below the marker. *)
Definition all_clear (l : ListSet) : Prop :=
  in_use l /\
  exists m, set l !! 0%nat = Some m /\ Forall (fun b => b < m) (stamps l).


(** A list of capacity 4 whose marker has reached 255, with node 2
    visited: the next [Reset] is the one that overflows. *)
Definition list_at_255 : ListSet := mkListSet [255; 0; 0; 255; 0].

(** Whether [node] is unvisited after each of [k] calls of [Reset] in a
    row. *)
Fixpoint unvisited_through_resets (node : Z) (k : nat) (l : ListSet) : option bool :=
  match k with
  | O => Some true
  | S k' =>
      l' ← Reset l;
      v ← isVisited node l';
      if (v : bool) then Some false else unvisited_through_resets node k' l'
  end.

(** A sequence of operations, run from left to right. *)
Fixpoint run (ops : list Op) (l : ListSet) : option ListSet :=
  match ops with
  | [] => Some l
  | o :: ops' => l' ← step o l; run ops' l'
  end.

(** The node ids that count as visited after an operation, given those
    that counted before it: the abstract set the list stands for. *)
Definition visited_after (o : Op) (seen : list Z) : list Z :=
  match o with
  | OpVisit node => node :: seen
  | OpVisited _ => seen
  | OpReset => []
  end.

Fixpoint visited_set (ops : list Op) (seen : list Z) : list Z :=
  match ops with
  | [] => seen
  | o :: ops' => visited_set ops' (visited_after o seen)
  end.

(** Operations on node ids, none of them a [Visit] of the largest
    [uint64]. *)
Definition op_in_bounds (o : Op) : Prop :=
  match o with
  | OpVisit node => is_uint64 node /\ node < max_uint64
  | OpVisited node => is_uint64 node
  | OpReset => True
  end.

(** The list [l] stands for the set [seen] of node ids. *)
Definition stands_for (l : ListSet) (seen : list Z) : Prop :=
  inv l /\
  forall node, is_uint64 node -> isVisited node l = Some (bool_decide (node ∈ seen)).

(** ** Slices of any element type *)

(** [copy(dst, src)] for slices of any type, as [copy] above. *)
Definition slice_copy {A : Type} (dst src : list A) : list A :=
  take (length dst) src ++ drop (length src) dst.

(** * The class helper of the sorter: [sorter.classHelper]

    The schema is not part of these sources: [GetClass] of the schema is a
    parameter, a function from class names to classes ([None] is the nil
    pointer), and so are the two data type names [DataTypeString] and
    [DataTypeInt].  A [[]string] is a [list string], the nil slice being
    the empty list. *)

Module Sorter.

Record Property : Type := mkProperty { Name : string; DataType : list string }.

Record Class : Type := mkClass { Properties : list (option Property) }.

(** [for _, prop := range class.Properties { ... }; return nil]: a nil
    pointer among the properties panics when its name is read. *)
Fixpoint find_DataType (props : list (option Property)) (property : string)
  : option (list string) :=
  match props with
  | [] => Some []
  | prop :: props' =>
      p ← prop;
      if decide (Name p = property) then Some (DataType p)
      else find_DataType props' property
  end.

Definition getDataType (GetClass : string -> option Class)
    (DataTypeString DataTypeInt : string) (className property : string)
  : option (list string) :=
  let class := GetClass className in
  if decide (property = "id" \/ property = "_id")%string
  then Some [DataTypeString]
  else if decide (property = "_creationTimeUnix"
                  \/ property = "_lastUpdateTimeUnix")%string
  then Some [DataTypeInt]
  else c ← class; find_DataType (Properties c) property.

Definition getOrder (order : string) : string :=
  if decide (order = "asc" \/ order = "desc")%string then order
  else "asc"%string.

End Sorter.

(** A property name that [getDataType] does not answer by itself. *)
Definition declared_name (property : string) : Prop :=
  (property <> "id" /\ property <> "_id" /\
   property <> "_creationTimeUnix" /\ property <> "_lastUpdateTimeUnix")%string.

(** A class for the examples: its second and third property have the
    same name, and its last one is a nil pointer. *)
Definition person_name : Sorter.Property :=
  Sorter.mkProperty "name" ["string"%string].
Definition person_age : Sorter.Property :=
  Sorter.mkProperty "age" ["int"%string].
Definition person_age_again : Sorter.Property :=
  Sorter.mkProperty "age" ["number"%string].
Definition person : Sorter.Class :=
  Sorter.mkClass [Some person_name; Some person_age; Some person_age_again; None].

(** * Removing references from an object: [objects]

    The generated [models] are not part of these sources.  Of a
    [models.SingleRef] this code reads the field [Beacon] only; the record
    keeps one more field, [Href], to tell apart references to the same
    beacon.  A [*SingleRef] is an [option] ([None] is the nil pointer, and
    reading its beacon panics), a [models.MultipleRef] the list of its
    elements: the nil slice and an empty slice are both the empty list,
    so that a list stands for what a slice holds and not for which slice
    it is, and no result below tells a nil slice from an empty one.  An
    [interface{}] stored in the properties of an object is a [value]: nil,
    a [MultipleRef], or a value of any other type, of which only the name
    of the type is kept.  The [Properties] of an object are an [iface]:
    nil, a [map[string]interface{}] (that may be the nil map, [None]), or
    a value of another type. *)

Module Objects.

Record SingleRef : Type := mkSingleRef { Beacon : string; Href : string }.

Definition MultipleRef : Type := list (option SingleRef).

Inductive value : Type :=
  | VNil
  | VRefs (refs : MultipleRef)
  | VOther (typ : string).

Inductive iface : Type :=
  | INil
  | IMap (m : option (gmap string value))
  | IOther.

(** [NewErrInternal(format, arg)], unformatted. *)
Inductive error : Type :=
  | ErrInternal (format : string) (arg : value).

(** The loop of [removeReference]: the references with another beacon
    are appended to [newrefs]. *)
Fixpoint keep_other_beacons (refs : MultipleRef) (ref : option SingleRef)
    (newrefs : MultipleRef) : option MultipleRef :=
  match refs with
  | [] => Some newrefs
  | r :: refs' =>
      r0 ← r;
      ref0 ← ref;
      if decide (Beacon r0 <> Beacon ref0)
      then keep_other_beacons refs' ref (newrefs ++ [r])
      else keep_other_beacons refs' ref newrefs
  end.

(** The result is the pair [(ok, errmsg)] and the properties of the
    object after the call. *)
Definition removeReference (obj : iface) (prop : string) (ref : option SingleRef)
  : option (bool * string * iface) :=
  match obj with
  | IMap None => Some (false, ""%string, obj)
  | IMap (Some properties) =>
      match properties !! prop with
      | None | Some VNil => Some (false, ""%string, obj)
      | Some (VRefs refs) =>
          newrefs ← keep_other_beacons refs ref [];
          Some (negb (length refs =? length newrefs)%nat, ""%string,
                IMap (Some (<[prop := VRefs newrefs]> properties)))
      | Some (VOther _) =>
          Some (false, "source list is not well formed"%string, obj)
      end
  | INil | IOther => None
  end.

(** The loop of [removeRef] up to its [break]: the index of the first
    reference with the beacon of [property], if there is one. *)
Fixpoint first_with_beacon (refs : MultipleRef) (property : option SingleRef)
    (i : nat) : option (option nat) :=
  match refs with
  | [] => Some None
  | currentRef :: refs' =>
      c ← currentRef;
      p ← property;
      if decide (Beacon c <> Beacon p)
      then first_with_beacon refs' property (S i)
      else Some (Some i)
  end.

(** The result is the slice returned and the array that backs both it
    and the slice given. *)
Definition removeRef (refs : MultipleRef) (property : option SingleRef)
  : option (MultipleRef * MultipleRef) :=
  found ← first_with_beacon refs property 0;
  match found with
  | None => Some (refs, refs)
  | Some i =>
      let shifted := take i refs ++ slice_copy (drop i refs) (drop (S i) refs) in
      let array := <[(length refs - 1)%nat := None]> shifted in
      Some (take (length refs - 1) array, array)
  end.

(** The result is the error, or the map returned. *)
Definition removeReferenceFromClassProps (props : iface) (propertyName : string)
    (property : option SingleRef) : option (error + gmap string value) :=
  propsMap ← match props with
             | INil => Some (Some ∅)
             | IMap m => Some m
             | IOther => None
             end;
  propsMap ← match propsMap with
             | Some m =>
                 match m !! propertyName with
                 | Some _ => Some m
                 | None => Some (<[propertyName := VRefs []]> m)
                 end
             | None => None
             end;
  let existingRefs := default VNil (propsMap !! propertyName) in
  match existingRefs with
  | VRefs existingMultipleRef =>
      r ← removeRef existingMultipleRef property;
      Some (inr (<[propertyName := VRefs (fst r)]> propsMap))
  | _ =>
      Some (inl (ErrInternal
                   "expected list for reference props, but got %T"%string
                   existingRefs))
  end.

End Objects.

(** The references of [rs] whose beacon is not [b], in their order. *)
Definition other_beacons (b : string) (rs : list Objects.SingleRef)
  : list Objects.SingleRef :=
  filter (fun r => Objects.Beacon r <> b) rs.

(** References for the examples: two of them point to the same beacon. *)
Definition ref_a : Objects.SingleRef :=
  Objects.mkSingleRef "weaviate://localhost/a" "/v1/objects/a".
Definition ref_b : Objects.SingleRef :=
  Objects.mkSingleRef "weaviate://localhost/b" "/v1/objects/b".
Definition ref_b_again : Objects.SingleRef :=
  Objects.mkSingleRef "weaviate://localhost/b" "/v1/objects/other".
Definition friends : gmap string Objects.value :=
  {[ "friends"%string := Objects.VRefs [Some ref_a; Some ref_b; Some ref_b_again];
     "name"%string := Objects.VOther "string" ]}.

(** * The aggregation of dates: [aggregator.dateAggregator]

    A row is a timestamp and the number of objects that hold it.  The
    embedding covers the aggregation by rows ([addRow]) and the five
    results; the field [valueCounter], which only [AddTimestamp] and
    [buildPairsFromCounts] use, is left out with them: they go through the
    parser of the [time] package and the order in which a Go map is
    walked.  A [uint64] and an [int64] are integers of [Z] as above. *)

Module Aggregator.

Record timestamp : Type := mkTimestamp { epochNano : Z; rfc3339 : string }.

Module timestampCountPair.
Record t : Type := mk { value : timestamp; count : Z }.
End timestampCountPair.

Record dateAggregator : Type := mkDateAggregator {
  count : Z;
  maxCount : Z;
  min : timestamp;
  max : timestamp;
  mode : timestamp;
  pairs : list timestampCountPair.t
}.

(** The zero value of [timestamp]. *)
Definition zero_timestamp : timestamp := mkTimestamp 0 "".

Definition newDateAggregator : dateAggregator :=
  {| count := 0; maxCount := 0;
     min := mkTimestamp max_int "";
     max := zero_timestamp; mode := zero_timestamp; pairs := [] |}.

(** [addRow]; the error it returns is always nil. *)
Definition addRow (ts : timestamp) (n : Z) (a : dateAggregator) : dateAggregator :=
  if n =? 0 then a
  else
    {| count := wrap64 (count a + n);
       min := if epochNano ts <? epochNano (min a) then ts else min a;
       max := if epochNano (max a) <? epochNano ts then ts else max a;
       maxCount := if maxCount a <? n then n else maxCount a;
       mode := if maxCount a <? n then ts else mode a;
       pairs := pairs a ++ [timestampCountPair.mk ts n] |}.

Definition Max (a : dateAggregator) : string := rfc3339 (max a).

Definition Min (a : dateAggregator) : string := rfc3339 (min a).

Definition Mode (a : dateAggregator) : string := rfc3339 (mode a).

Definition Count (a : dateAggregator) : Z := wrap_int (count a).

(** The loop of [Median]: [median] is the variable of that name. *)
Fixpoint median_loop (ps : list timestampCountPair.t) (index : Z)
    (median : timestamp) : timestamp :=
  match ps with
  | [] => median
  | pr :: ps' =>
      if index <=? timestampCountPair.count pr
      then timestampCountPair.value pr
      else median_loop ps' (wrap64 (index - timestampCountPair.count pr)) median
  end.

Definition Median (a : dateAggregator) : string :=
  let index := if count a mod 2 =? 0 then count a / 2
               else wrap64 (count a / 2 + 1) in
  rfc3339 (median_loop (pairs a) index zero_timestamp).

End Aggregator.

(** The aggregator after the rows of a list, added in order. *)
Definition addRows (rows : list (Aggregator.timestamp * Z))
    (a : Aggregator.dateAggregator) : Aggregator.dateAggregator :=
  foldl (fun a row => Aggregator.addRow (fst row) (snd row) a) a rows.

(** The rows that count: those with a count that is not 0. *)
Definition live (rows : list (Aggregator.timestamp * Z))
  : list (Aggregator.timestamp * Z) :=
  filter (fun row => snd row <> 0) rows.

(** The sum of the counts of rows. *)
Definition total (rows : list (Aggregator.timestamp * Z)) : Z :=
  foldr (fun row s => snd row + s) 0 rows.

Definition pair_of_row (row : Aggregator.timestamp * Z)
  : Aggregator.timestampCountPair.t :=
  Aggregator.timestampCountPair.mk (fst row) (snd row).

(** The rank of the median among [n] values: [n/2] for an even [n],
    [n/2 + 1] for an odd one. *)
Definition median_rank (n : Z) : Z :=
  if n mod 2 =? 0 then n / 2 else n / 2 + 1.

(** Rows for the examples. *)
Definition day1 : Aggregator.timestamp :=
  Aggregator.mkTimestamp 1000 "1970-01-01T00:00:00.000001Z".
Definition day2 : Aggregator.timestamp :=
  Aggregator.mkTimestamp 2000 "1970-01-01T00:00:00.000002Z".
Definition before_epoch : Aggregator.timestamp :=
  Aggregator.mkTimestamp (-1000) "1969-12-31T23:59:59.999999Z".
Definition some_rows : list (Aggregator.timestamp * Z) :=
  [(day1, 2); (before_epoch, 0); (day2, 3); (day1, 3)].

(** ** The scenarios of the specification *)

Example scenario_A :
  (l0 ← NewList 4;
   v0 ← isVisited 2 l0;
   l1 ← Visit 2 l0;
   v1 ← isVisited 2 l1;
   l2 ← Reset l1;
   v2 ← isVisited 2 l2;
   Some (Len l0, v0, v1, v2)) = Some (4, false, true, false).
Proof. vm_compute. reflexivity. Qed.

Example scenario_B :
  (l0 ← NewList 4;
   l1 ← Visit 10 l0;
   v10 ← isVisited 10 l1;
   v3 ← isVisited 3 l1;
   Some (Len l1, v10, v3)) = Some (1033, true, false).
Proof. vm_compute. reflexivity. Qed.

(** ** Machine integers: lemmas *)

Lemma wrap64_small z : 0 <= z < 2 ^ 64 -> wrap64 z = z.
Proof. intros H. unfold wrap64. apply Z.mod_small. exact H. Qed.

Lemma wrap8_small z : 0 <= z < 2 ^ 8 -> wrap8 z = z.
Proof. intros H. unfold wrap8. apply Z.mod_small. exact H. Qed.

Lemma wrap_int_small z : - 2 ^ 63 <= z <= max_int -> wrap_int z = z.
Proof.
  unfold wrap_int, max_int. intros H.
  rewrite Z.mod_small; lia.
Qed.

Lemma max_int_lt_2_64 : max_int < 2 ^ 64.
Proof. unfold max_int. lia. Qed.

(** ** Slices: lemmas *)

Lemma max_alloc_le_max_int : max_alloc <= max_int.
Proof. unfold max_alloc, max_int. lia. Qed.

Lemma make_Some n :
  0 <= n <= max_alloc -> make n = Some (replicate (Z.to_nat n) 0).
Proof.
  intros [H0 H1]. unfold make.
  apply Z.leb_le in H0, H1. rewrite H0, H1. reflexivity.
Qed.

Lemma make_Some_inv n s :
  make n = Some s -> 0 <= n <= max_alloc /\ s = replicate (Z.to_nat n) 0.
Proof.
  unfold make. destruct (0 <=? n) eqn:H0; destruct (n <=? max_alloc) eqn:H1;
    simpl; intros H; inversion H.
  apply Z.leb_le in H0, H1. auto.
Qed.

Lemma load_Some s i v :
  0 <= i -> s !! Z.to_nat i = Some v -> load s i = Some v.
Proof.
  intros H0 Hl. unfold load.
  assert (Hlt : (Z.to_nat i < length s)%nat) by (eapply lookup_lt_Some; eauto).
  assert (H1 : (0 <=? i) = true) by (apply Z.leb_le; lia).
  assert (H2 : (i <? Z.of_nat (length s)) = true) by (apply Z.ltb_lt; lia).
  rewrite H1, H2. exact Hl.
Qed.

Lemma load_Some_inv s i v :
  load s i = Some v ->
  0 <= i < Z.of_nat (length s) /\ s !! Z.to_nat i = Some v.
Proof.
  unfold load. destruct (0 <=? i) eqn:H0; destruct (i <? Z.of_nat (length s)) eqn:H1;
    simpl; intros H; try discriminate.
  apply Z.leb_le in H0. apply Z.ltb_lt in H1. auto.
Qed.

Lemma store_Some s i v :
  0 <= i < Z.of_nat (length s) -> store s i v = Some (<[Z.to_nat i := v]> s).
Proof.
  intros [H0 H1]. unfold store.
  apply Z.leb_le in H0. apply Z.ltb_lt in H1. rewrite H0, H1. reflexivity.
Qed.

Lemma store_Some_inv s i v s' :
  store s i v = Some s' ->
  0 <= i < Z.of_nat (length s) /\ s' = <[Z.to_nat i := v]> s.
Proof.
  unfold store. destruct (0 <=? i) eqn:H0; destruct (i <? Z.of_nat (length s)) eqn:H1;
    simpl; intros H; inversion H.
  apply Z.leb_le in H0. apply Z.ltb_lt in H1. auto.
Qed.

Lemma length_copy dst src : length (copy dst src) = length dst.
Proof.
  unfold copy. rewrite length_app, length_take, length_drop. lia.
Qed.

Lemma copy_lookup_src dst src (i : nat) :
  (i < length dst)%nat -> (i < length src)%nat ->
  copy dst src !! i = src !! i.
Proof.
  intros Hd Hs. unfold copy.
  rewrite lookup_app_l by (rewrite length_take; lia).
  apply lookup_take_lt. exact Hd.
Qed.

Lemma copy_lookup_dst dst src (i : nat) :
  (length src <= i)%nat -> copy dst src !! i = dst !! i.
Proof.
  intros Hs. unfold copy.
  destruct (decide (i < length dst)%nat) as [Hd | Hd].
  - rewrite lookup_app_r by (rewrite length_take; lia).
    rewrite length_take, lookup_drop. f_equal. lia.
  - rewrite !lookup_ge_None_2; [reflexivity | lia |].
    rewrite length_app, length_take, length_drop. lia.
Qed.

Lemma Forall_copy (P : Z -> Prop) dst src :
  Forall P dst -> Forall P src -> Forall P (copy dst src).
Proof.
  intros Hd Hs. unfold copy. apply Forall_app. split.
  - apply Forall_take. exact Hs.
  - apply Forall_drop. exact Hd.
Qed.

(** The loop of [Reset] leaves a slice of zeros of the same length. *)
Lemma zero_range_from (pre post : list Z) :
  foldl (fun acc i => <[i := 0]> acc) (pre ++ post)
        (seq (length pre) (length post))
  = pre ++ replicate (length post) 0.
Proof.
  revert pre. induction post as [| x post IH]; intros pre; simpl.
  - reflexivity.
  - replace (<[length pre := 0]> (pre ++ x :: post))
      with ((pre ++ [0]) ++ post).
    + specialize (IH (pre ++ [0])).
      rewrite length_app in IH. simpl in IH.
      replace (length pre + 1)%nat with (S (length pre)) in IH by lia.
      rewrite IH. rewrite <- app_assoc. reflexivity.
    + rewrite <- app_assoc. simpl.
      rewrite insert_app_r_alt by lia.
      replace (length pre - length pre)%nat with 0%nat by lia.
      reflexivity.
Qed.

Lemma zero_range_replicate s : zero_range s = replicate (length s) 0.
Proof. unfold zero_range. apply (zero_range_from [] s). Qed.

Lemma load_cons_0 x s : load (x :: s) 0 = Some x.
Proof.
  apply load_Some; [lia | reflexivity].
Qed.

Lemma store_cons_0 x s v : store (x :: s) 0 v = Some (v :: s).
Proof.
  rewrite store_Some by (simpl; lia). reflexivity.
Qed.

Lemma load_cons_succ x s i :
  0 <= i -> load (x :: s) (i + 1) = load s i.
Proof.
  intros Hi. unfold load. simpl length.
  replace (Z.to_nat (i + 1)) with (S (Z.to_nat i)) by lia.
  replace (0 <=? i + 1) with true by (symmetry; apply Z.leb_le; lia).
  replace (0 <=? i) with true by (symmetry; apply Z.leb_le; lia).
  simpl.
  destruct (Z.ltb_spec i (Z.of_nat (length s)));
    destruct (Z.ltb_spec (i + 1) (Z.of_nat (S (length s)))); try lia; reflexivity.
Qed.

(** ** The operations: lemmas *)

Lemma Len_in_use l : in_use l -> Len l = Z.of_nat (length (set l)) - 1.
Proof.
  unfold in_use, Len, max_int. intros H.
  rewrite (wrap64_small (Z.of_nat _)) by lia.
  rewrite wrap64_small by lia. reflexivity.
Qed.

Lemma in_use_cons l : in_use l -> exists m rest, set l = m :: rest.
Proof.
  unfold in_use. destruct (set l) as [| m rest]; simpl; intros H.
  - lia.
  - eauto.
Qed.

Lemma NewList_Some size :
  0 <= size < max_alloc ->
  NewList size = Some (mkListSet (1 :: replicate (Z.to_nat size) 0)).
Proof.
  intros H. unfold NewList.
  rewrite wrap_int_small by (unfold max_alloc, max_int in *; lia).
  rewrite make_Some by lia.
  replace (Z.to_nat (size + 1)) with (S (Z.to_nat size)) by lia.
  cbn [mbind option_bind replicate]. rewrite store_cons_0. reflexivity.
Qed.

Lemma NewList_Some_inv size l :
  NewList size = Some l ->
  exists k : nat, (Z.of_nat k < max_alloc) /\ l = mkListSet (1 :: replicate k 0).
Proof.
  unfold NewList. intros H.
  destruct (make (wrap_int (size + 1))) as [s |] eqn:Hm; simpl in H; [| discriminate].
  apply make_Some_inv in Hm as [Hn ->].
  destruct (Z.to_nat (wrap_int (size + 1))) as [| k] eqn:Hk.
  - unfold store in H. simpl in H. discriminate.
  - change (store (0 :: replicate k 0) 0 1 ≫= (fun s => Some (mkListSet s)) = Some l) in H.
    rewrite store_cons_0 in H. simpl in H. inversion H.
    exists k. split; [lia | reflexivity].
Qed.

Lemma inv_store l m j s :
  inv l -> load (set l) 0 = Some m -> store (set l) j m = Some s ->
  inv (mkListSet s).
Proof.
  intros [Hu (m' & Hm' & Hr & Hall)] Hl Hs.
  apply load_Some_inv in Hl as [_ Hl].
  change (Z.to_nat 0) with 0%nat in Hl.
  assert (m' = m) by congruence. subst m'.
  apply store_Some_inv in Hs as [Hj ->].
  split.
  - unfold in_use in *. simpl. rewrite length_insert. exact Hu.
  - exists m. simpl. split; [| split].
    + destruct (decide (Z.to_nat j = 0%nat)) as [-> | Hne].
      * apply list_lookup_insert_eq. unfold in_use in Hu. lia.
      * rewrite list_lookup_insert_ne by exact Hne. exact Hm'.
    + exact Hr.
    + apply Forall_insert; [exact Hall | lia].
Qed.

Lemma inv_copy l (k : nat) :
  inv l -> 1 <= Z.of_nat k <= max_int ->
  inv (mkListSet (copy (replicate k 0) (set l))).
Proof.
  intros [Hu (m & Hm & Hr & Hall)] Hk.
  split.
  - unfold in_use. simpl. rewrite length_copy, length_replicate. exact Hk.
  - exists m. simpl. split; [| split].
    + rewrite copy_lookup_src.
      * exact Hm.
      * rewrite length_replicate. lia.
      * unfold in_use in Hu. lia.
    + exact Hr.
    + apply Forall_copy; [| exact Hall].
      apply Forall_replicate. lia.
Qed.

Lemma NewList_inv size l : NewList size = Some l -> inv l.
Proof.
  intros H. apply NewList_Some_inv in H as (k & Hk & ->).
  split.
  - unfold in_use. cbn [set length]. rewrite length_replicate.
    pose proof max_alloc_le_max_int. lia.
  - exists 1. simpl. split; [reflexivity | split; [lia |]].
    constructor; [lia |]. apply Forall_replicate. lia.
Qed.

Lemma Visit_inv node l l' : inv l -> Visit node l = Some l' -> inv l'.
Proof.
  intros Hinv. unfold Visit.
  destruct (Len l <=? node).
  - destruct (make (wrap64 (node + 1024))) as [newset |] eqn:Hm; simpl; [| discriminate].
    apply make_Some_inv in Hm as [Hn ->].
    destruct (load (copy _ (set l)) 0) as [m |] eqn:Hl; simpl; [| discriminate].
    destruct (store (copy _ (set l)) _ m) as [s |] eqn:Hs; simpl; [| discriminate].
    intros H. inversion H. subst l'.
    assert (Hk : 1 <= Z.of_nat (Z.to_nat (wrap64 (node + 1024))) <= max_int).
    { apply load_Some_inv in Hl as [Hl _].
      rewrite length_copy, length_replicate in Hl.
      pose proof max_alloc_le_max_int. lia. }
    eapply (inv_store (mkListSet _)); [apply (inv_copy l _ Hinv Hk) | exact Hl | exact Hs].
  - simpl.
    destruct (load (set l) 0) as [m |] eqn:Hl; simpl; [| discriminate].
    destruct (store (set l) _ m) as [s |] eqn:Hs; simpl; [| discriminate].
    intros H. inversion H. subst l'.
    eapply inv_store; eauto.
Qed.

Lemma Visited_state node l r l' : Visited node l = Some (r, l') -> l' = l.
Proof.
  unfold Visited. destruct (node <? Len l).
  - destruct (load (set l) (wrap64 (node + 1))); simpl; [| discriminate].
    destruct (load (set l) 0); simpl; [| discriminate].
    intros H. inversion H. reflexivity.
  - intros H. inversion H. reflexivity.
Qed.

Lemma Reset_incr_cons m rest :
  Reset_incr (mkListSet (m :: rest)) = Some (mkListSet (wrap8 (m + 1) :: rest)).
Proof.
  unfold Reset_incr. cbn [set]. rewrite load_cons_0. cbn [mbind option_bind].
  rewrite store_cons_0. reflexivity.
Qed.

Lemma wrap8_succ m :
  0 <= m <= 255 -> wrap8 (m + 1) = if m =? 255 then 0 else m + 1.
Proof.
  intros H. destruct (Z.eqb_spec m 255) as [-> | Hne].
  - reflexivity.
  - apply wrap8_small. lia.
Qed.


Lemma Reset_cons m rest :
  0 <= m <= 255 ->
  Reset (mkListSet (m :: rest)) =
  Some (mkListSet (if m =? 255 then 1 :: replicate (length rest) 0
                   else (m + 1) :: rest)).
Proof.
  intros H. unfold Reset. rewrite Reset_incr_cons. cbn [mbind option_bind].
  unfold overflowed. cbn [set]. rewrite load_cons_0. cbn [mbind option_bind].
  rewrite wrap8_succ by exact H.
  destruct (Z.eqb_spec m 255) as [-> | Hne].
  - change (0 =? 0) with true. cbv iota.
    unfold Reset_clear. cbn [set]. rewrite zero_range_replicate.
    cbn [length replicate]. rewrite store_cons_0. reflexivity.
  - replace (m + 1 =? 0) with false by (symmetry; apply Z.eqb_neq; lia).
    reflexivity.
Qed.

Lemma inv_cons l :
  inv l ->
  exists m rest, l = mkListSet (m :: rest) /\ 1 <= m <= 255 /\
                 Forall (fun b => 0 <= b <= m) rest /\
                 Z.of_nat (length rest) < max_int.
Proof.
  intros [Hu (m & Hm & Hr & Hall)]. destruct l as [s]. simpl in *.
  unfold in_use in Hu. simpl in Hu.
  destruct s as [| x rest]; [discriminate |].
  simpl in Hm. inversion Hm. subst x.
  exists m, rest. apply Forall_cons in Hall as [_ Hall].
  simpl in Hu. repeat split; try assumption; lia.
Qed.

Lemma Reset_inv l :
  inv l -> exists l', Reset l = Some l' /\ inv l' /\ all_clear l'.
Proof.
  intros Hinv. apply inv_cons in Hinv as (m & rest & -> & Hr & Hall & Hlen).
  rewrite Reset_cons by lia.
  eexists. split; [reflexivity |].
  destruct (Z.eqb_spec m 255) as [-> | Hne].
  - split; split.
    + unfold in_use. cbn [set length]. rewrite length_replicate. lia.
    + exists 1. cbn [set]. split; [reflexivity | split; [lia |]].
      constructor; [lia |]. apply Forall_replicate. lia.
    + unfold in_use. cbn [set length]. rewrite length_replicate. lia.
    + exists 1. cbn [set stamps tail]. split; [reflexivity |].
      apply Forall_replicate. lia.
  - split; split.
    + unfold in_use. cbn [set length]. lia.
    + exists (m + 1). cbn [set]. split; [reflexivity | split; [lia |]].
      constructor; [lia |].
      eapply Forall_impl; [exact Hall |]. simpl. intros b Hb. lia.
    + unfold in_use. cbn [set length]. lia.
    + exists (m + 1). cbn [set stamps tail]. split; [reflexivity |].
      eapply Forall_impl; [exact Hall |]. simpl. intros b Hb. lia.
Qed.

Lemma step_inv o l l' : inv l -> step o l = Some l' -> inv l'.
Proof.
  intros Hinv. destruct o as [node | node |]; simpl.
  - apply Visit_inv. exact Hinv.
  - destruct (Visited node l) as [[r l1] |] eqn:Hv; simpl; [| discriminate].
    intros H. inversion H. subst l1.
    apply Visited_state in Hv. subst l'. exact Hinv.
  - intros H. destruct (Reset_inv l Hinv) as (l1 & Hr & Hi & _).
    congruence.
Qed.

Lemma reachable_inv l : reachable l -> inv l.
Proof.
  induction 1 as [size l Hs Hn | o l l' Hr IH Ho Hst].
  - eapply NewList_inv. exact Hn.
  - eapply step_inv; eauto.
Qed.

(** [Visited] on a list in use: the bounds check of the source always
    passes, and the result is the comparison of the stamp with the marker. *)
Lemma Visited_cons node m rest :
  is_uint64 node -> Z.of_nat (length rest) < max_int ->
  Visited node (mkListSet (m :: rest)) =
  Some (match rest !! Z.to_nat node with
        | Some a => a =? m
        | None => false
        end, mkListSet (m :: rest)).
Proof.
  intros Hn Hlen. unfold Visited.
  rewrite Len_in_use by (unfold in_use; cbn [set length]; lia).
  cbn [set length]. unfold is_uint64 in Hn.
  destruct (Z.ltb_spec node (Z.of_nat (S (length rest)) - 1)) as [Hlt | Hge].
  - rewrite wrap64_small by (unfold max_int in Hlen; lia).
    rewrite load_cons_succ by lia.
    rewrite load_cons_0.
    destruct (lookup_lt_is_Some_2 rest (Z.to_nat node)) as [a Ha]; [lia |].
    rewrite (load_Some rest node a) by (auto; lia).
    cbn [mbind option_bind]. rewrite Ha. reflexivity.
  - rewrite lookup_ge_None_2 by lia. reflexivity.
Qed.

Lemma all_clear_Visited node l :
  all_clear l -> is_uint64 node -> Visited node l = Some (false, l).
Proof.
  intros [Hu (m & Hm & Hall)] Hn. destruct l as [s].
  unfold in_use in Hu. simpl in *.
  destruct s as [| x rest]; [discriminate |].
  simpl in Hm. inversion Hm. subst x. simpl in Hu. cbn [stamps set tail] in Hall.
  rewrite Visited_cons by (auto; lia).
  destruct (rest !! Z.to_nat node) as [a |] eqn:Ha; [| reflexivity].
  rewrite Forall_lookup in Hall. specialize (Hall _ _ Ha). simpl in Hall.
  replace (a =? m) with false by (symmetry; apply Z.eqb_neq; lia).
  reflexivity.
Qed.

Lemma copy_cons d dst x src : copy (d :: dst) (x :: src) = x :: copy dst src.
Proof. reflexivity. Qed.

(** [Visit] of a node that has a slot: one store, no allocation. *)
Lemma Visit_cons_in_range node m rest :
  0 <= node < Z.of_nat (length rest) -> Z.of_nat (length rest) < max_int ->
  Visit node (mkListSet (m :: rest)) =
  Some (mkListSet (m :: <[Z.to_nat node := m]> rest)).
Proof.
  intros Hn Hlen. unfold Visit.
  rewrite Len_in_use by (unfold in_use; cbn [set length]; lia).
  cbn [set length].
  replace (Z.of_nat (S (length rest)) - 1 <=? node) with false
    by (symmetry; apply Z.leb_gt; lia).
  cbn [mbind option_bind set]. rewrite load_cons_0. cbn [mbind option_bind].
  rewrite wrap64_small by (unfold max_int in Hlen; lia).
  rewrite store_Some by (cbn [length]; lia).
  replace (Z.to_nat (node + 1)) with (S (Z.to_nat node)) by lia.
  reflexivity.
Qed.

(** [Visit] of a node beyond the capacity, when the new length
    [node + 1024] is one that [make] takes: the slice is replaced by a
    longer one that starts with the old contents. *)
Lemma Visit_cons_grow node m rest :
  Z.of_nat (length rest) <= node -> node + 1024 <= max_alloc ->
  Visit node (mkListSet (m :: rest)) =
  Some (mkListSet (m :: <[Z.to_nat node := m]>
                          (copy (replicate (Z.to_nat (node + 1023)) 0) rest))).
Proof.
  intros Hn Hmax. pose proof max_alloc_le_max_int as Hma. unfold Visit.
  rewrite Len_in_use by (unfold in_use; cbn [set length]; lia).
  cbn [set length].
  replace (Z.of_nat (S (length rest)) - 1 <=? node) with true
    by (symmetry; apply Z.leb_le; lia).
  rewrite (wrap64_small (node + 1024)) by (unfold max_alloc in Hmax; lia).
  rewrite (wrap64_small (node + 1)) by (unfold max_alloc in Hmax; lia).
  rewrite make_Some by lia.
  replace (Z.to_nat (node + 1024)) with (S (Z.to_nat (node + 1023))) by lia.
  cbn [mbind option_bind set replicate]. rewrite copy_cons.
  rewrite load_cons_0. cbn [mbind option_bind].
  rewrite store_Some
    by (cbn [length]; rewrite length_copy, length_replicate; lia).
  replace (Z.to_nat (node + 1)) with (S (Z.to_nat node)) by lia.
  reflexivity.
Qed.

Lemma in_use_cons_length l :
  in_use l ->
  exists m rest, l = mkListSet (m :: rest) /\ Z.of_nat (length rest) < max_int.
Proof.
  unfold in_use. destruct l as [[| m rest]]; cbn [set length]; intros H.
  - lia.
  - exists m, rest. split; [reflexivity | lia].
Qed.

Lemma make_None n : n < 0 \/ max_alloc < n -> make n = None.
Proof.
  intros H. unfold make.
  destruct (Z.leb_spec 0 n); destruct (Z.leb_spec n max_alloc);
    try reflexivity; lia.
Qed.

Lemma store_None s i v : Z.of_nat (length s) <= i -> store s i v = None.
Proof.
  intros H. unfold store.
  destruct (Z.ltb_spec i (Z.of_nat (length s))); [lia |].
  rewrite andb_false_r. reflexivity.
Qed.

Lemma load_nil i : load [] i = None.
Proof.
  unfold load. cbn [length].
  destruct (Z.leb_spec 0 i); destruct (Z.ltb_spec i (Z.of_nat 0));
    try reflexivity; lia.
Qed.

(** [Visit] of the largest [uint64]: the length asked for wraps to 1023
    and the store goes to the marker slot. *)
Lemma Visit_cons_max m rest :
  Z.of_nat (length rest) < max_int ->
  Visit max_uint64 (mkListSet (m :: rest)) =
  Some (mkListSet (m :: copy (replicate (Z.to_nat 1022) 0) rest)).
Proof.
  intros Hlen. unfold Visit.
  rewrite Len_in_use by (unfold in_use; cbn [set length]; lia).
  cbn [set length].
  replace (Z.of_nat (S (length rest)) - 1 <=? max_uint64) with true
    by (symmetry; apply Z.leb_le; unfold max_uint64, max_int in *; lia).
  change (wrap64 (max_uint64 + 1024)) with 1023.
  change (wrap64 (max_uint64 + 1)) with 0.
  rewrite make_Some by (unfold max_alloc; lia).
  replace (Z.to_nat 1023) with (S (Z.to_nat 1022)) by lia.
  cbn [mbind option_bind set replicate]. rewrite copy_cons.
  rewrite load_cons_0. cbn [mbind option_bind].
  rewrite store_cons_0. reflexivity.
Qed.

(** [Visit] beyond the capacity panics when the length asked for is above
    the limit of the allocator, the largest [uint64] apart: in [make], or,
    when the length has wrapped around, in the store. *)
Lemma Visit_cons_panics node m rest :
  Z.of_nat (length rest) < max_int ->
  Z.of_nat (length rest) <= node -> max_alloc < node + 1024 ->
  node < max_uint64 ->
  Visit node (mkListSet (m :: rest)) = None.
Proof.
  intros Hlen Hge Hbig Hlt. unfold max_uint64 in Hlt. unfold max_alloc in Hbig.
  unfold Visit.
  rewrite Len_in_use by (unfold in_use; cbn [set length]; lia).
  cbn [set length].
  replace (Z.of_nat (S (length rest)) - 1 <=? node) with true
    by (symmetry; apply Z.leb_le; lia).
  rewrite (wrap64_small (node + 1)) by lia.
  destruct (Z.lt_ge_cases (node + 1024) (2 ^ 64)) as [Hsmall | Hwrap].
  - rewrite wrap64_small by lia.
    rewrite make_None by (unfold max_alloc; lia). reflexivity.
  - assert (Hw : wrap64 (node + 1024) = node + 1024 - 2 ^ 64).
    { unfold wrap64. symmetry. apply (Z.mod_unique_pos _ _ 1); lia. }
    rewrite Hw. rewrite make_Some by (unfold max_alloc; lia).
    cbn [mbind option_bind set].
    destruct (load _ 0) as [m0 |]; cbn [mbind option_bind]; [| reflexivity].
    rewrite store_None; [reflexivity |].
    rewrite length_copy, length_replicate. lia.
Qed.

(** What a call of [Visit] that returned has done, the largest [uint64]
    apart: a store into the slice as it was, or into a longer one whose
    length [make] has taken. *)
Lemma Visit_cons_returns node m rest l' :
  Z.of_nat (length rest) < max_int -> is_uint64 node -> node < max_uint64 ->
  Visit node (mkListSet (m :: rest)) = Some l' ->
  (node < Z.of_nat (length rest) /\
   l' = mkListSet (m :: <[Z.to_nat node := m]> rest)) \/
  (Z.of_nat (length rest) <= node /\ node + 1024 <= max_alloc /\
   l' = mkListSet (m :: <[Z.to_nat node := m]>
                          (copy (replicate (Z.to_nat (node + 1023)) 0) rest))).
Proof.
  intros Hlen Hn Hlt HV. unfold is_uint64 in Hn.
  destruct (Z.lt_ge_cases node (Z.of_nat (length rest))) as [Hin | Hge].
  - rewrite Visit_cons_in_range in HV by lia. inversion HV. left. auto.
  - destruct (Z.le_gt_cases (node + 1024) max_alloc) as [Hmax | Hbig].
    + rewrite Visit_cons_grow in HV by lia. inversion HV. right. auto.
    + rewrite Visit_cons_panics in HV by lia. discriminate.
Qed.

(** A [Visit] that returns, of a node other than the largest [uint64],
    never lowers the capacity and marks the node. *)
Lemma Visit_returns_marks node l l' :
  in_use l -> is_uint64 node -> node < max_uint64 ->
  Visit node l = Some l' ->
  in_use l' /\ Len l <= Len l' /\ node < Len l' /\
  Visited node l' = Some (true, l').
Proof.
  intros Hu Hn Hlt HV.
  destruct (in_use_cons_length l Hu) as (m & rest & -> & Hlen).
  pose proof max_alloc_le_max_int as Hma.
  destruct (Visit_cons_returns node m rest l' Hlen Hn Hlt HV)
    as [[Hin ->] | (Hge & Hmax & ->)]; unfold is_uint64 in Hn.
  - assert (Hu' : in_use (mkListSet (m :: <[Z.to_nat node := m]> rest))).
    { unfold in_use. cbn [set length]. rewrite length_insert. lia. }
    split; [exact Hu' |].
    rewrite (Len_in_use _ Hu), (Len_in_use _ Hu'). cbn [set length].
    rewrite length_insert. split; [lia |]. split; [lia |].
    rewrite Visited_cons by (rewrite ?length_insert; auto).
    rewrite list_lookup_insert_eq by lia.
    rewrite Z.eqb_refl. reflexivity.
  - set (rest' := <[Z.to_nat node := m]>
                    (copy (replicate (Z.to_nat (node + 1023)) 0) rest)).
    assert (Hl' : Z.of_nat (length rest') = node + 1023).
    { unfold rest'. rewrite length_insert, length_copy, length_replicate. lia. }
    assert (Hu' : in_use (mkListSet (m :: rest'))).
    { unfold in_use. cbn [set length]. lia. }
    split; [exact Hu' |].
    rewrite (Len_in_use _ Hu), (Len_in_use _ Hu'). cbn [set length].
    split; [lia |]. split; [lia |].
    rewrite Visited_cons by (auto; lia).
    unfold rest'. rewrite list_lookup_insert_eq
      by (rewrite length_copy, length_replicate; lia).
    rewrite Z.eqb_refl. reflexivity.
Qed.

(** Such a [Visit] leaves the answer of [Visited] for every other node as
    it was, whether or not the list has grown. *)
Lemma Visit_returns_frame node other l l' :
  inv l -> is_uint64 node -> node < max_uint64 ->
  is_uint64 other -> other <> node ->
  Visit node l = Some l' -> isVisited other l' = isVisited other l.
Proof.
  intros Hinv Hn Hlt Ho Hne HV.
  apply inv_cons in Hinv as (m & rest & -> & Hm & Hall & Hlen).
  assert (Hidx : Z.to_nat node <> Z.to_nat other)
    by (unfold is_uint64 in Hn, Ho; lia).
  pose proof max_alloc_le_max_int as Hma.
  unfold isVisited.
  destruct (Visit_cons_returns node m rest l' Hlen Hn Hlt HV)
    as [[Hin ->] | (Hge & Hmax & ->)]; unfold is_uint64 in Hn.
  - rewrite !Visited_cons by (rewrite ?length_insert; auto).
    cbn [fmap option_fmap option_map fst].
    rewrite list_lookup_insert_ne by exact Hidx. reflexivity.
  - rewrite !Visited_cons
      by (rewrite ?length_insert, ?length_copy, ?length_replicate; auto; lia).
    cbn [fmap option_fmap option_map fst].
    rewrite list_lookup_insert_ne by exact Hidx.
    destruct (Z.lt_ge_cases other (Z.of_nat (length rest))) as [Ho1 | Ho1].
    + rewrite copy_lookup_src
        by (rewrite ?length_replicate; unfold is_uint64 in Ho; lia).
      reflexivity.
    + rewrite copy_lookup_dst by (unfold is_uint64 in Ho; lia).
      rewrite (lookup_ge_None_2 rest) by (unfold is_uint64 in Ho; lia).
      destruct (replicate _ 0 !! Z.to_nat other) as [a |] eqn:Ha; [| reflexivity].
      apply lookup_replicate in Ha as [-> _].
      f_equal. apply Z.eqb_neq. lia.
Qed.

(** Such a [Visit] beyond the capacity has grown the list past the node;
    the slots that have come into range are unvisited. *)
Lemma Visit_returns_grown node l l' :
  inv l -> Len l <= node -> node < max_uint64 ->
  Visit node l = Some l' ->
  Len l' = node + 1023 /\
  Visited node l' = Some (true, l') /\
  forall other, is_uint64 other -> Len l <= other -> other <> node ->
                Visited other l' = Some (false, l').
Proof.
  intros Hinv Hge Hlt HV.
  assert (Hu : in_use l) by apply Hinv.
  apply inv_cons in Hinv as (m & rest & -> & Hm & Hall & Hlen).
  rewrite (Len_in_use _ Hu) in *. cbn [set length] in *.
  pose proof max_alloc_le_max_int as Hma.
  assert (Hn : is_uint64 node) by (unfold is_uint64, max_uint64 in *; lia).
  destruct (Visit_cons_returns node m rest l' Hlen Hn Hlt HV)
    as [[Hin _] | (_ & Hmax & ->)]; [lia |].
  set (rest' := <[Z.to_nat node := m]>
                  (copy (replicate (Z.to_nat (node + 1023)) 0) rest)).
  assert (Hl' : Z.of_nat (length rest') = node + 1023).
  { unfold rest'. rewrite length_insert, length_copy, length_replicate. lia. }
  assert (Hu' : in_use (mkListSet (m :: rest')))
    by (unfold in_use; cbn [set length]; lia).
  rewrite (Len_in_use _ Hu'). cbn [set length].
  split; [lia |]. split.
  - rewrite Visited_cons by (auto; lia).
    unfold rest'. rewrite list_lookup_insert_eq
      by (rewrite length_copy, length_replicate; lia).
    rewrite Z.eqb_refl. reflexivity.
  - intros other Ho Hoge Hne.
    rewrite Visited_cons by (auto; lia).
    unfold rest'. rewrite list_lookup_insert_ne by (unfold is_uint64 in Ho; lia).
    rewrite copy_lookup_dst by lia.
    destruct (replicate _ 0 !! Z.to_nat other) as [a |] eqn:Ha; [| reflexivity].
    apply lookup_replicate in Ha as [-> _].
    replace (0 =? m) with false by (symmetry; apply Z.eqb_neq; lia).
    reflexivity.
Qed.

(** No reachable state holds a slice longer than [make] takes. *)
Lemma reachable_alloc l :
  reachable l -> Z.of_nat (length (set l)) <= max_alloc.
Proof.
  induction 1 as [size l Hs Hn | o l l' Hr IH Ho Hst].
  - apply NewList_Some_inv in Hn as (k & Hk & ->).
    cbn [set length]. rewrite length_replicate. lia.
  - apply reachable_inv, inv_cons in Hr as (m & rest & -> & Hm & _ & Hlen).
    cbn [set length] in IH.
    destruct o as [node | node |]; cbn [step op_ok] in Hst, Ho.
    + destruct (decide (node = max_uint64)) as [-> | Hne].
      * rewrite Visit_cons_max in Hst by exact Hlen.
        apply (inj Some) in Hst. rewrite <- Hst.
        cbn [set length]. rewrite length_copy, length_replicate.
        unfold max_alloc. lia.
      * assert (Hlt : node < max_uint64)
          by (unfold is_uint64, max_uint64 in *; lia).
        destruct (Visit_cons_returns node m rest l' Hlen Ho Hlt Hst)
          as [[Hin ->] | (Hge & Hmax & ->)]; cbn [set length].
        -- rewrite length_insert. exact IH.
        -- rewrite length_insert, length_copy, length_replicate. lia.
    + destruct (Visited node (mkListSet (m :: rest))) as [[r l1] |] eqn:Hv;
        [| discriminate].
      apply Visited_state in Hv as ->. inversion Hst. exact IH.
    + rewrite Reset_cons in Hst by lia. inversion Hst.
      destruct (m =? 255); cbn [set length]; rewrite ?length_replicate; lia.
Qed.



Lemma Resets_reachable (k : nat) : forall l l',
  reachable l -> Resets k l = Some l' -> reachable l'.
Proof.
  induction k as [| k IH]; intros l l' Hr; cbn [Resets].
  - intros H. inversion H. subst l'. exact Hr.
  - destruct (Reset l) as [l1 |] eqn:HR; cbn [mbind option_bind]; [| discriminate].
    apply IH. apply (reachable_step OpReset l l1 Hr I HR).
Qed.




(** * The properties *)

Lemma list_at_255_reachable : reachable list_at_255.
Proof.
  apply (reachable_step (OpVisit 2) (mkListSet [255; 0; 0; 0; 0])).
  - apply (Resets_reachable 254 (mkListSet [1; 0; 0; 0; 0])).
    + apply (reachable_new 4); [unfold is_int, max_int; lia | reflexivity].
    + vm_compute. reflexivity.
  - unfold op_ok, is_uint64. lia.
  - vm_compute. reflexivity.
Defined.

(** C1. In every state reachable from [NewList] through [Visit], [Visited]
    and [Reset], a call of [Reset] returns, and in the state it leaves
    [Visited] answers false for every node id; a marker that wraps around
    is one of the cases. *)
Theorem Reset_unvisits_every_node l :
  reachable l ->
  exists l', Reset l = Some l' /\
             forall node, is_uint64 node -> Visited node l' = Some (false, l').
Proof.
  intros Hr. apply reachable_inv in Hr.
  destruct (Reset_inv l Hr) as (l' & HR & _ & Hclear).
  exists l'. split; [exact HR |].
  intros node Hn. apply all_clear_Visited; assumption.
Qed.

Lemma Reset_unvisits_every_node_witness :
  reachable list_at_255 /\
  exists l', Reset list_at_255 = Some l' /\
             forall node, is_uint64 node -> Visited node l' = Some (false, l').
Proof.
  split.
  - exact list_at_255_reachable.
  - exact (Reset_unvisits_every_node list_at_255 list_at_255_reachable).
Defined.

(** Scenario C: capacity 1, node 0 visited, then 300 resets; node 0 is
    unvisited after each of them. *)
Example scenario_C :
  (l0 ← NewList 1;
   l1 ← Visit 0 l0;
   unvisited_through_resets 0 300 l1) = Some true.
Proof. vm_compute. reflexivity. Qed.

(** C9. In every reachable state the marker is at least 1 (and at most
    255).  The increment inside [Reset] is the only place where it can
    become 0, and then the full clear follows and sets it to 1. *)
Theorem marker_at_least_1 l :
  reachable l ->
  exists m, marker l = Some m /\ 1 <= m <= 255 /\
    exists l1, Reset_incr l = Some l1 /\ marker l1 = Some (wrap8 (m + 1)) /\
      (marker l1 = Some 0 ->
       exists l', Reset l = Some l' /\ Reset_clear l1 = Some l' /\
                  marker l' = Some 1).
Proof.
  intros Hr. apply reachable_inv, inv_cons in Hr as (m & rest & -> & Hm & _ & _).
  exists m. unfold marker. cbn [set]. rewrite load_cons_0.
  split; [reflexivity |]. split; [exact Hm |].
  rewrite Reset_incr_cons. eexists. split; [reflexivity |].
  cbn [set]. rewrite load_cons_0. split; [reflexivity |].
  intros H0. inversion H0 as [H1].
  rewrite wrap8_succ in H1 |- * by lia.
  destruct (Z.eqb_spec m 255) as [-> | Hne]; [| lia].
  rewrite Reset_cons by lia. change (255 =? 255) with true. cbv iota.
  eexists. split; [reflexivity |].
  unfold Reset_clear. cbn [set]. rewrite zero_range_replicate.
  cbn [length replicate]. rewrite store_cons_0. cbn [mbind option_bind set].
  split; [reflexivity |]. apply load_cons_0.
Qed.

Lemma marker_at_least_1_witness :
  reachable list_at_255 /\
  exists m, marker list_at_255 = Some m /\ 1 <= m <= 255 /\
    exists l1, Reset_incr list_at_255 = Some l1 /\
               marker l1 = Some (wrap8 (m + 1)) /\
      (marker l1 = Some 0 ->
       exists l', Reset list_at_255 = Some l' /\ Reset_clear l1 = Some l' /\
                  marker l' = Some 1).
Proof.
  split.
  - exact list_at_255_reachable.
  - exact (marker_at_least_1 list_at_255 list_at_255_reachable).
Defined.

(** C5, as amended.  For every non-negative size for which the
    allocation [make([]uint8, size+1)] succeeds, which it does for no
    size from [max_alloc] on, [NewList size] returns a list of capacity
    [size] in which no node id is visited. *)
Theorem NewList_capacity_and_unvisited size :
  is_int size -> 0 <= size -> is_Some (make (wrap_int (size + 1))) ->
  size < max_alloc /\
  exists l, NewList size = Some l /\ Len l = size /\
            forall node, is_uint64 node -> Visited node l = Some (false, l).
Proof.
  intros Hi H0 [s Hmake]. unfold is_int in Hi.
  pose proof max_alloc_le_max_int as Hma.
  assert (Hs : size < max_alloc).
  { destruct (decide (size = max_int)) as [-> | Hne];
      [vm_compute in Hmake; discriminate |].
    rewrite wrap_int_small in Hmake by (unfold max_int in *; lia).
    apply make_Some_inv in Hmake as [Hle _]. lia. }
  split; [exact Hs |].
  rewrite NewList_Some by lia.
  eexists. split; [reflexivity |].
  assert (Hlen : Z.of_nat (length (replicate (Z.to_nat size) 0)) = size)
    by (rewrite length_replicate; lia).
  split.
  - rewrite Len_in_use by (unfold in_use; cbn [set length]; lia).
    cbn [set length]. lia.
  - intros node Hn. rewrite Visited_cons by (auto; lia).
    destruct (replicate _ 0 !! Z.to_nat node) as [a |] eqn:Ha; [| reflexivity].
    apply lookup_replicate in Ha as [-> _]. reflexivity.
Qed.

Lemma NewList_capacity_and_unvisited_witness :
  is_int 4 /\ 0 <= 4 /\ is_Some (make (wrap_int (4 + 1))) /\
  4 < max_alloc /\
  exists l, NewList 4 = Some l /\ Len l = 4 /\
            forall node, is_uint64 node -> Visited node l = Some (false, l).
Proof.
  assert (Hi : is_int 4) by (unfold is_int, max_int; lia).
  assert (H0 : 0 <= 4) by lia.
  assert (Hm : is_Some (make (wrap_int (4 + 1))))
    by (exists [0; 0; 0; 0; 0]; reflexivity).
  split; [exact Hi |]. split; [exact H0 |]. split; [exact Hm |].
  exact (NewList_capacity_and_unvisited 4 Hi H0 Hm).
Defined.

(** C5, as stated, fails at the largest [int]: [size + 1] wraps to a
    negative length and [make] panics.  It fails from [max_alloc] on as
    well, where [size + 1] is a length that [make] refuses. *)
Lemma NewList_max_int_panics :
  0 <= max_int /\ is_int max_int /\ NewList max_int = None /\
  0 <= max_alloc /\ is_int max_alloc /\ NewList max_alloc = None.
Proof.
  repeat split; try (vm_compute; reflexivity); vm_compute; discriminate.
Qed.

(** C10. After [Free], [Len] is [2^64 - 1]: the length 0 of the nil slice
    minus one, in [uint64]. *)
Theorem Len_after_Free l : Len (Free l) = 2 ^ 64 - 1.
Proof. reflexivity. Qed.

(** Use after [Free], which the source rules out: the slice has no
    marker slot, and every operation on a node below [2^64 - 1] panics. *)
Example use_after_Free l :
  Visited 0 (Free l) = None /\ Visit 0 (Free l) = None /\ Reset (Free l) = None.
Proof. repeat split. Qed.

(** C7. [Visited] answers false for a node at or beyond the capacity;
    below the capacity of a list in use it compares the stamp of the node
    with the marker; and it returns the state it was given. *)
Theorem Visited_reads_only l node :
  is_uint64 node ->
  (Len l <= node -> Visited node l = Some (false, l)) /\
  (in_use l -> node < Len l ->
   exists a m, stamps l !! Z.to_nat node = Some a /\ marker l = Some m /\
               Visited node l = Some (a =? m, l)) /\
  (forall r l', Visited node l = Some (r, l') -> l' = l).
Proof.
  intros Hn. split; [| split].
  - intros Hge. unfold Visited.
    replace (node <? Len l) with false by (symmetry; apply Z.ltb_ge; exact Hge).
    reflexivity.
  - intros Hu Hlt. rewrite (Len_in_use _ Hu) in Hlt.
    destruct (in_use_cons_length l Hu) as (m & rest & -> & Hlen).
    cbn [set length] in Hlt.
    destruct (lookup_lt_is_Some_2 rest (Z.to_nat node)) as [a Ha];
      [unfold is_uint64 in Hn; lia |].
    exists a, m. cbn [stamps set tail]. split; [exact Ha |].
    split; [apply load_cons_0 |].
    rewrite Visited_cons by assumption. rewrite Ha. reflexivity.
  - intros r l'. apply Visited_state.
Qed.

Lemma Visited_reads_only_witness :
  is_uint64 2 /\ in_use list_at_255 /\ 2 < Len list_at_255 /\
  (exists a m, stamps list_at_255 !! Z.to_nat 2 = Some a /\
               marker list_at_255 = Some m /\
               Visited 2 list_at_255 = Some (a =? m, list_at_255)) /\
  (forall r l', Visited 2 list_at_255 = Some (r, l') -> l' = list_at_255).
Proof.
  assert (H : is_uint64 2) by (unfold is_uint64; lia).
  assert (Hu : in_use list_at_255) by (unfold in_use, max_int; simpl; lia).
  assert (Hlt : 2 < Len list_at_255) by (vm_compute; reflexivity).
  destruct (Visited_reads_only list_at_255 2 H) as (_ & Hin & Hpure).
  split; [exact H |]. split; [exact Hu |]. split; [exact Hlt |].
  split; [exact (Hin Hu Hlt) | exact Hpure].
Defined.





(** C3, at the node id [2^64 - 1]: [node + 1024] wraps to 1023, the slice
    of 2001 bytes is replaced by one of 1023, and [Len] falls from 2000
    to 1022. *)
Example Visit_max_uint64_lowers_Len :
  (l0 ← NewList 2000;
   l1 ← Visit max_uint64 l0;
   Some (Len l0, Len l1)) = Some (2000, 1022).
Proof. vm_compute. reflexivity. Qed.

(** C4, at the node ids [2^64 - 1] and 1500: node 1500 is visited, and
    after [Visit (2^64 - 1)] it is not, its stamp being beyond the 1023
    bytes that the wrapped length keeps. *)
Example Visit_max_uint64_changes_other_node :
  (l0 ← NewList 2000;
   l1 ← Visit 1500 l0;
   before ← isVisited 1500 l1;
   l2 ← Visit max_uint64 l1;
   after ← isVisited 1500 l2;
   Some (before, after)) = Some (true, false).
Proof. vm_compute. reflexivity. Qed.

(** C6, at the node id [2^64 - 1] on a fresh list of capacity 4: the
    capacity is at most the node id, [Visit] returns, and then [Len] is
    1022 and [Visited] answers false for the node. *)
Example Visit_max_uint64_does_not_reach_node :
  (l0 ← NewList 4;
   l1 ← Visit max_uint64 l0;
   v ← isVisited max_uint64 l1;
   Some (Len l0 <=? max_uint64, Len l1, max_uint64 + 1 <=? Len l1, v))
  = Some (true, 1022, false, false).
Proof. vm_compute. reflexivity. Qed.

(** * Further properties of the list set *)

Lemma NewList_stands_for size l :
  NewList size = Some l -> stands_for l [].
Proof.
  intros HN. split; [eapply NewList_inv; exact HN |].
  apply NewList_Some_inv in HN as (k & Hk & ->).
  pose proof max_alloc_le_max_int as Hma.
  intros node Hn. unfold isVisited.
  rewrite Visited_cons by (rewrite ?length_replicate; auto; lia).
  cbn [fmap option_fmap option_map fst].
  rewrite bool_decide_eq_false_2 by apply not_elem_of_nil.
  destruct (replicate k 0 !! Z.to_nat node) as [a |] eqn:Ha; [| reflexivity].
  apply lookup_replicate in Ha as [-> _]. reflexivity.
Qed.

Lemma step_stands_for o l l' seen :
  stands_for l seen -> op_in_bounds o -> step o l = Some l' ->
  stands_for l' (visited_after o seen).
Proof.
  intros [Hinv HS] Hb Hst. destruct o as [n | n |]; cbn [step visited_after] in *.
  - destruct Hb as [Hn Hlt].
    destruct (Visit_returns_marks n l l' (proj1 Hinv) Hn Hlt Hst)
      as (_ & _ & _ & Hvis).
    split; [eapply Visit_inv; eauto |].
    intros node Hnode. destruct (decide (node = n)) as [-> | Hne].
    + unfold isVisited. rewrite Hvis. cbn [fmap option_fmap option_map fst].
      rewrite bool_decide_eq_true_2 by (apply elem_of_cons; left; reflexivity).
      reflexivity.
    + rewrite (Visit_returns_frame n node l l' Hinv Hn Hlt Hnode Hne Hst).
      rewrite (HS node Hnode). f_equal.
      apply bool_decide_ext. rewrite elem_of_cons. tauto.
  - destruct (Visited n l) as [[r l1] |] eqn:Hv; [| discriminate].
    apply Visited_state in Hv as ->. inversion Hst. subst l'.
    split; assumption.
  - destruct (Reset_inv l Hinv) as (l1 & HR & Hinv' & Hclear).
    assert (l1 = l') by congruence. subst l1.
    split; [exact Hinv' |].
    intros node Hn. unfold isVisited.
    rewrite (all_clear_Visited node l' Hclear Hn).
    cbn [fmap option_fmap option_map fst].
    rewrite bool_decide_eq_false_2 by apply not_elem_of_nil. reflexivity.
Qed.

Lemma run_stands_for ops : forall l l' seen,
  stands_for l seen -> Forall op_in_bounds ops -> run ops l = Some l' ->
  stands_for l' (visited_set ops seen).
Proof.
  induction ops as [| o ops IH]; intros l l' seen Hsim Hall Hrun;
    cbn [run visited_set] in *.
  - inversion Hrun. subst l'. exact Hsim.
  - apply Forall_cons in Hall as [Ho Hall].
    destruct (step o l) as [l1 |] eqn:Hst; cbn [mbind option_bind] in Hrun;
      [| discriminate].
    eapply IH; [| exact Hall | exact Hrun].
    eapply step_stands_for; eauto.
Qed.

(** X1. A list made by [NewList] and used through any operations, none of
    them a [Visit] of the largest [uint64], behaves as a set of node ids:
    when the operations have returned, [Visited] answers true exactly for
    the nodes given to [Visit] since the last [Reset]. *)
Theorem ListSet_behaves_as_set size ops l0 l :
  NewList size = Some l0 -> Forall op_in_bounds ops -> run ops l0 = Some l ->
  forall node, is_uint64 node ->
    isVisited node l = Some (bool_decide (node ∈ visited_set ops [])).
Proof.
  intros HN Hall Hrun.
  exact (proj2 (run_stands_for ops l0 l [] (NewList_stands_for size l0 HN)
                  Hall Hrun)).
Qed.

Lemma ListSet_behaves_as_set_witness :
  NewList 4 = Some (mkListSet [1; 0; 0; 0; 0]) /\
  Forall op_in_bounds [OpVisit 2; OpReset; OpVisit 10; OpVisited 3; OpVisit 1] /\
  run [OpVisit 2; OpReset; OpVisit 10; OpVisited 3; OpVisit 1]
      (mkListSet [1; 0; 0; 0; 0])
  = Some (mkListSet (2 :: <[1%nat := 2]>
                            (<[10%nat := 2]> ([0; 0; 1; 0] ++ replicate 1029 0)))) /\
  forall node, is_uint64 node ->
    isVisited node
      (mkListSet (2 :: <[1%nat := 2]>
                         (<[10%nat := 2]> ([0; 0; 1; 0] ++ replicate 1029 0))))
    = Some (bool_decide
              (node ∈ visited_set
                 [OpVisit 2; OpReset; OpVisit 10; OpVisited 3; OpVisit 1] [])).
Proof.
  assert (HN : NewList 4 = Some (mkListSet [1; 0; 0; 0; 0])) by reflexivity.
  assert (Hall : Forall op_in_bounds
                   [OpVisit 2; OpReset; OpVisit 10; OpVisited 3; OpVisit 1]).
  { repeat constructor; unfold is_uint64, max_uint64; lia. }
  assert (Hrun : run [OpVisit 2; OpReset; OpVisit 10; OpVisited 3; OpVisit 1]
                     (mkListSet [1; 0; 0; 0; 0])
                 = Some (mkListSet
                           (2 :: <[1%nat := 2]>
                                   (<[10%nat := 2]>
                                      ([0; 0; 1; 0] ++ replicate 1029 0)))))
    by (vm_compute; reflexivity).
  split; [exact HN |]. split; [exact Hall |]. split; [exact Hrun |].
  exact (ListSet_behaves_as_set 4 _ _ _ HN Hall Hrun).
Defined.

(** X2. On a list in use, [Visit] of a node below the capacity returns,
    with no allocation; and whenever [Visit] of a node other than the
    largest [uint64] has returned, the capacity has not decreased: it is
    as it was when the node was below it, and [node + 1023] otherwise. *)
Theorem Visit_capacity l node :
  in_use l -> is_uint64 node -> node < max_uint64 ->
  (node < Len l -> is_Some (Visit node l)) /\
  forall l', Visit node l = Some l' ->
    Len l <= Len l' /\
    (node < Len l -> Len l' = Len l) /\
    (Len l <= node -> Len l' = node + 1023).
Proof.
  intros Hu Hn Hlt.
  destruct (in_use_cons_length l Hu) as (m & rest & -> & Hlen).
  rewrite (Len_in_use _ Hu). cbn [set length].
  pose proof max_alloc_le_max_int as Hma.
  split.
  - intros Hin. unfold is_uint64 in Hn.
    rewrite Visit_cons_in_range by lia. eexists. reflexivity.
  - intros l' HV.
    destruct (Visit_cons_returns node m rest l' Hlen Hn Hlt HV)
      as [[Hin ->] | (Hge & Hmax & ->)]; unfold is_uint64 in Hn.
    + rewrite Len_in_use
        by (unfold in_use; cbn [set length]; rewrite length_insert; lia).
      cbn [set length]. rewrite length_insert. lia.
    + rewrite Len_in_use
        by (unfold in_use; cbn [set length];
            rewrite length_insert, length_copy, length_replicate; lia).
      cbn [set length]. rewrite length_insert, length_copy, length_replicate. lia.
Qed.

Lemma Visit_capacity_witness :
  in_use list_at_255 /\ is_uint64 10 /\ 10 < max_uint64 /\
  (10 < Len list_at_255 -> is_Some (Visit 10 list_at_255)) /\
  forall l', Visit 10 list_at_255 = Some l' ->
    Len list_at_255 <= Len l' /\
    (10 < Len list_at_255 -> Len l' = Len list_at_255) /\
    (Len list_at_255 <= 10 -> Len l' = 10 + 1023).
Proof.
  assert (Hu : in_use list_at_255) by (unfold in_use, max_int; simpl; lia).
  assert (Hn : is_uint64 10) by (unfold is_uint64; lia).
  assert (Hlt : 10 < max_uint64) by (unfold max_uint64; lia).
  split; [exact Hu |]. split; [exact Hn |]. split; [exact Hlt |].
  exact (Visit_capacity list_at_255 10 Hu Hn Hlt).
Defined.

(** X3. In a reachable state, a [Visit] that returns, of a node other
    than the largest [uint64], does not change the answer of [Visited] for
    any other node, whether or not the list has grown. *)
Theorem Visit_frame_reachable l node other l' :
  reachable l -> is_uint64 node -> node < max_uint64 ->
  is_uint64 other -> other <> node ->
  Visit node l = Some l' -> isVisited other l' = isVisited other l.
Proof.
  intros Hr. apply Visit_returns_frame. apply reachable_inv. exact Hr.
Qed.

Lemma Visit_frame_reachable_witness :
  reachable list_at_255 /\ is_uint64 10 /\ 10 < max_uint64 /\
  is_uint64 2 /\ 2 <> 10 /\
  Visit 10 list_at_255
  = Some (mkListSet (255 :: <[10%nat := 255]>
                              ([0; 0; 255; 0] ++ replicate 1029 0))) /\
  isVisited 2 (mkListSet (255 :: <[10%nat := 255]>
                                   ([0; 0; 255; 0] ++ replicate 1029 0)))
  = isVisited 2 list_at_255.
Proof.
  assert (Hn : is_uint64 10) by (unfold is_uint64; lia).
  assert (Hlt : 10 < max_uint64) by (unfold max_uint64; lia).
  assert (Ho : is_uint64 2) by (unfold is_uint64; lia).
  assert (Hne : 2 <> 10) by lia.
  assert (HV : Visit 10 list_at_255
               = Some (mkListSet (255 :: <[10%nat := 255]>
                                           ([0; 0; 255; 0] ++ replicate 1029 0))))
    by (vm_compute; reflexivity).
  split; [exact list_at_255_reachable |]. split; [exact Hn |].
  split; [exact Hlt |]. split; [exact Ho |]. split; [exact Hne |].
  split; [exact HV |].
  exact (Visit_frame_reachable list_at_255 10 2 _ list_at_255_reachable
           Hn Hlt Ho Hne HV).
Defined.

(** X4. In a reachable state, a [Visit] beyond the capacity that returns,
    of a node other than the largest [uint64], has grown the list past
    the node and marked it, and every other node that was beyond the
    capacity before is unvisited afterwards, also those that now have a
    slot. *)
Theorem Visit_growth_reachable l node l' :
  reachable l -> Len l <= node -> node < max_uint64 ->
  Visit node l = Some l' ->
  node + 1 <= Len l' /\
  Visited node l' = Some (true, l') /\
  forall other, is_uint64 other -> Len l <= other -> other <> node ->
                Visited other l' = Some (false, l').
Proof.
  intros Hr Hge Hlt HV.
  destruct (Visit_returns_grown node l l' (reachable_inv l Hr) Hge Hlt HV)
    as (HL & Hv & Hothers).
  split; [lia |]. split; assumption.
Qed.

Lemma Visit_growth_reachable_witness :
  reachable list_at_255 /\ Len list_at_255 <= 10 /\ 10 < max_uint64 /\
  Visit 10 list_at_255
  = Some (mkListSet (255 :: <[10%nat := 255]>
                              ([0; 0; 255; 0] ++ replicate 1029 0))) /\
  10 + 1 <= Len (mkListSet (255 :: <[10%nat := 255]>
                                     ([0; 0; 255; 0] ++ replicate 1029 0))) /\
  Visited 10 (mkListSet (255 :: <[10%nat := 255]>
                                  ([0; 0; 255; 0] ++ replicate 1029 0)))
  = Some (true, mkListSet (255 :: <[10%nat := 255]>
                                    ([0; 0; 255; 0] ++ replicate 1029 0))) /\
  forall other, is_uint64 other -> Len list_at_255 <= other -> other <> 10 ->
    Visited other (mkListSet (255 :: <[10%nat := 255]>
                                       ([0; 0; 255; 0] ++ replicate 1029 0)))
    = Some (false, mkListSet (255 :: <[10%nat := 255]>
                                       ([0; 0; 255; 0] ++ replicate 1029 0))).
Proof.
  assert (Hge : Len list_at_255 <= 10) by (vm_compute; discriminate).
  assert (Hlt : 10 < max_uint64) by (unfold max_uint64; lia).
  assert (HV : Visit 10 list_at_255
               = Some (mkListSet (255 :: <[10%nat := 255]>
                                           ([0; 0; 255; 0] ++ replicate 1029 0))))
    by (vm_compute; reflexivity).
  split; [exact list_at_255_reachable |]. split; [exact Hge |].
  split; [exact Hlt |]. split; [exact HV |].
  exact (Visit_growth_reachable list_at_255 10 _ list_at_255_reachable
           Hge Hlt HV).
Defined.

(** X5. On a list in use, for [node + 1024 <= max_int], a second [Visit]
    of the same node changes nothing: it returns the state the first one
    returned. *)
Theorem Visit_twice l node l' :
  in_use l -> 0 <= node -> node + 1024 <= max_int ->
  Visit node l = Some l' -> Visit node l' = Some l'.
Proof.
  intros Hu H0 Hmax HV.
  destruct (in_use_cons_length l Hu) as (m & rest & -> & Hlen).
  pose proof max_alloc_le_max_int as Hma.
  assert (Hn : is_uint64 node) by (unfold is_uint64, max_int in *; lia).
  assert (Hlt : node < max_uint64) by (unfold max_uint64, max_int in *; lia).
  destruct (Visit_cons_returns node m rest l' Hlen Hn Hlt HV)
    as [[Hin ->] | (Hge & Hal & ->)].
  - rewrite Visit_cons_in_range by (rewrite length_insert; lia).
    rewrite list_insert_insert_eq. reflexivity.
  - rewrite Visit_cons_in_range
      by (rewrite length_insert, length_copy, length_replicate; lia).
    rewrite list_insert_insert_eq. reflexivity.
Qed.

Lemma Visit_twice_witness :
  in_use (mkListSet [1; 0; 0; 0; 0]) /\ 0 <= 10 /\ 10 + 1024 <= max_int /\
  Visit 10 (mkListSet [1; 0; 0; 0; 0])
  = Some (mkListSet (1 :: <[10%nat := 1]> (replicate 1033 0))) /\
  Visit 10 (mkListSet (1 :: <[10%nat := 1]> (replicate 1033 0)))
  = Some (mkListSet (1 :: <[10%nat := 1]> (replicate 1033 0))).
Proof.
  assert (Hu : in_use (mkListSet [1; 0; 0; 0; 0]))
    by (unfold in_use, max_int; simpl; lia).
  assert (H0 : 0 <= 10) by lia.
  assert (Hmax : 10 + 1024 <= max_int) by (unfold max_int; lia).
  assert (HV : Visit 10 (mkListSet [1; 0; 0; 0; 0])
               = Some (mkListSet (1 :: <[10%nat := 1]> (replicate 1033 0))))
    by (vm_compute; reflexivity).
  split; [exact Hu |]. split; [exact H0 |]. split; [exact Hmax |].
  split; [exact HV |].
  exact (Visit_twice _ 10 _ Hu H0 Hmax HV).
Defined.

(** X6. In a reachable state [Reset] returns and leaves the capacity as
    it is, also when it runs the full clear. *)
Theorem Reset_keeps_capacity l :
  reachable l -> exists l', Reset l = Some l' /\ Len l' = Len l.
Proof.
  intros Hr. apply reachable_inv, inv_cons in Hr as (m & rest & -> & Hm & _ & Hlen).
  rewrite Reset_cons by lia. eexists. split; [reflexivity |].
  unfold Len. destruct (m =? 255); cbn [set length];
    rewrite ?length_replicate; reflexivity.
Qed.

Lemma Reset_keeps_capacity_witness :
  reachable list_at_255 /\
  exists l', Reset list_at_255 = Some l' /\ Len l' = Len list_at_255.
Proof.
  split.
  - exact list_at_255_reachable.
  - exact (Reset_keeps_capacity list_at_255 list_at_255_reachable).
Defined.

(** X7. In a reachable state whose marker is 255, [Reset] returns the very
    state [NewList] returns for the capacity of the list. *)
Theorem Reset_at_255_is_NewList l :
  reachable l -> marker l = Some 255 -> Reset l = NewList (Len l).
Proof.
  intros Hr Hm.
  assert (Hu : in_use l) by apply (reachable_inv l Hr).
  assert (Hal := reachable_alloc l Hr).
  apply reachable_inv, inv_cons in Hr as (m & rest & -> & _ & _ & Hlen).
  cbn [set length] in Hal.
  unfold marker in Hm. cbn [set] in Hm. rewrite load_cons_0 in Hm.
  inversion Hm. subst m.
  rewrite Reset_cons by lia. change (255 =? 255) with true. cbv iota.
  rewrite (Len_in_use _ Hu). cbn [set length].
  rewrite NewList_Some by lia.
  do 4 f_equal. lia.
Qed.

Lemma Reset_at_255_is_NewList_witness :
  reachable list_at_255 /\ marker list_at_255 = Some 255 /\
  Reset list_at_255 = NewList (Len list_at_255).
Proof.
  assert (Hm : marker list_at_255 = Some 255) by reflexivity.
  split; [exact list_at_255_reachable |]. split; [exact Hm |].
  exact (Reset_at_255_is_NewList list_at_255 list_at_255_reachable Hm).
Defined.

(** The state after [k] calls of [Reset] in a row: the stamps are kept
    as long as the marker has not passed 255, and are all zero after. *)
Lemma Resets_cons (k : nat) : forall m rest,
  1 <= m <= 255 ->
  Resets k (mkListSet (m :: rest)) =
  Some (mkListSet (((m - 1 + Z.of_nat k) mod 255 + 1)
                   :: if m + Z.of_nat k <=? 255 then rest
                      else replicate (length rest) 0)).
Proof.
  induction k as [| k IH]; intros m rest Hm.
  - cbn [Resets]. replace (m - 1 + Z.of_nat 0) with (m - 1) by lia.
    rewrite Z.mod_small by lia.
    replace (m + Z.of_nat 0 <=? 255) with true by (symmetry; apply Z.leb_le; lia).
    do 3 f_equal. lia.
  - cbn [Resets]. rewrite Reset_cons by lia. cbn [mbind option_bind].
    destruct (Z.eqb_spec m 255) as [-> | Hne].
    + rewrite IH by lia.
      replace (255 + Z.of_nat (S k) <=? 255) with false
        by (symmetry; apply Z.leb_gt; lia).
      replace (255 - 1 + Z.of_nat (S k)) with (1 - 1 + Z.of_nat k + 1 * 255) by lia.
      rewrite Z_mod_plus_full. rewrite length_replicate.
      destruct (1 + Z.of_nat k <=? 255); reflexivity.
    + rewrite IH by lia.
      replace (m + 1 - 1 + Z.of_nat k) with (m - 1 + Z.of_nat (S k)) by lia.
      replace (m + 1 + Z.of_nat k) with (m + Z.of_nat (S k)) by lia.
      reflexivity.
Qed.

(** X8. In a reachable state, 255 calls of [Reset] in a row return, and
    they leave the marker as it was and every stamp zero: the list is
    empty and as long as before. *)
Theorem Resets_255 l :
  reachable l ->
  exists m, marker l = Some m /\
            Resets 255 l = Some (mkListSet (m :: replicate (Z.to_nat (Len l)) 0)).
Proof.
  intros Hr.
  assert (Hu : in_use l) by apply (reachable_inv l Hr).
  apply reachable_inv, inv_cons in Hr as (m & rest & -> & Hm & _ & Hlen).
  exists m. unfold marker. cbn [set]. rewrite load_cons_0.
  split; [reflexivity |].
  rewrite Resets_cons by lia.
  rewrite (Len_in_use _ Hu). cbn [set length].
  replace (m + Z.of_nat 255 <=? 255) with false by (symmetry; apply Z.leb_gt; lia).
  replace (m - 1 + Z.of_nat 255) with (m - 1 + 1 * 255) by lia.
  rewrite Z_mod_plus_full, Z.mod_small by lia.
  do 3 f_equal; [lia |]. f_equal. lia.
Qed.

Lemma Resets_255_witness :
  reachable list_at_255 /\
  exists m, marker list_at_255 = Some m /\
            Resets 255 list_at_255
            = Some (mkListSet (m :: replicate (Z.to_nat (Len list_at_255)) 0)).
Proof.
  split.
  - exact list_at_255_reachable.
  - exact (Resets_255 list_at_255 list_at_255_reachable).
Defined.

(** X9. [NewList] panics for every negative size (in [make], or for -1
    in the store of the marker into an empty slice) and for every size
    from [max_alloc] on, where [size + 1] is a length that [make] refuses
    or, for [max_int], has wrapped to a negative one. *)
Theorem NewList_panics size :
  is_int size -> size < 0 \/ max_alloc <= size -> NewList size = None.
Proof.
  intros Hs Hout. unfold is_int in Hs. unfold NewList.
  destruct (decide (size = max_int)) as [-> | Hmax]; [vm_compute; reflexivity |].
  destruct (decide (size = -1)) as [-> | Hm1]; [vm_compute; reflexivity |].
  rewrite wrap_int_small by (unfold max_int in *; lia).
  rewrite make_None by lia. reflexivity.
Qed.

Lemma NewList_panics_witness :
  is_int max_alloc /\ (max_alloc < 0 \/ max_alloc <= max_alloc) /\
  NewList max_alloc = None.
Proof.
  assert (Hs : is_int max_alloc) by (unfold is_int, max_alloc, max_int; lia).
  assert (Hout : max_alloc < 0 \/ max_alloc <= max_alloc) by (right; lia).
  split; [exact Hs |]. split; [exact Hout |].
  exact (NewList_panics max_alloc Hs Hout).
Defined.

(** X10. After [Free] the list cannot be used: [Reset] panics, and
    [Visit] and [Visited] panic for every node id below [2^64 - 1]. *)
Theorem no_use_after_Free l node :
  is_uint64 node -> node < max_uint64 ->
  Visit node (Free l) = None /\ Visited node (Free l) = None /\
  Reset (Free l) = None.
Proof.
  intros Hn Hlt. unfold max_uint64 in Hlt.
  assert (HL : Len (Free l) = 2 ^ 64 - 1) by reflexivity.
  split; [| split].
  - unfold Visit. rewrite HL.
    replace (2 ^ 64 - 1 <=? node) with false by (symmetry; apply Z.leb_gt; lia).
    cbn [mbind option_bind Free set]. rewrite load_nil. reflexivity.
  - unfold Visited. rewrite HL.
    replace (node <? 2 ^ 64 - 1) with true by (symmetry; apply Z.ltb_lt; lia).
    cbn [Free set]. rewrite (load_nil (wrap64 (node + 1))). reflexivity.
  - reflexivity.
Qed.

Lemma no_use_after_Free_witness :
  is_uint64 7 /\ 7 < max_uint64 /\
  Visit 7 (Free list_at_255) = None /\ Visited 7 (Free list_at_255) = None /\
  Reset (Free list_at_255) = None.
Proof.
  assert (Hn : is_uint64 7) by (unfold is_uint64; lia).
  assert (Hlt : 7 < max_uint64) by (unfold max_uint64; lia).
  split; [exact Hn |]. split; [exact Hlt |].
  exact (no_use_after_Free list_at_255 7 Hn Hlt).
Defined.

(** X11. On a list in use, [Visit] of a node at or beyond the capacity
    panics when the length [node + 1024] it asks for is above [max_alloc],
    the largest [uint64] apart: in [make], or, for the node ids whose sum
    wraps around, in the store of the stamp. *)
Theorem Visit_panics l node :
  in_use l -> is_uint64 node -> node < max_uint64 ->
  Len l <= node -> max_alloc < node + 1024 ->
  Visit node l = None.
Proof.
  intros Hu Hn Hlt Hge Hbig.
  destruct (in_use_cons_length l Hu) as (m & rest & -> & Hlen).
  rewrite (Len_in_use _ Hu) in Hge. cbn [set length] in Hge.
  apply Visit_cons_panics; [exact Hlen | lia | exact Hbig | exact Hlt].
Qed.

Lemma Visit_panics_witness :
  in_use list_at_255 /\ is_uint64 (2 ^ 63) /\ 2 ^ 63 < max_uint64 /\
  Len list_at_255 <= 2 ^ 63 /\ max_alloc < 2 ^ 63 + 1024 /\
  Visit (2 ^ 63) list_at_255 = None.
Proof.
  assert (Hu : in_use list_at_255) by (unfold in_use, max_int; simpl; lia).
  assert (Hn : is_uint64 (2 ^ 63)) by (unfold is_uint64; lia).
  assert (Hlt : 2 ^ 63 < max_uint64) by (unfold max_uint64; lia).
  assert (Hge : Len list_at_255 <= 2 ^ 63) by (vm_compute; discriminate).
  assert (Hbig : max_alloc < 2 ^ 63 + 1024) by (unfold max_alloc; lia).
  split; [exact Hu |]. split; [exact Hn |]. split; [exact Hlt |].
  split; [exact Hge |]. split; [exact Hbig |].
  exact (Visit_panics list_at_255 (2 ^ 63) Hu Hn Hlt Hge Hbig).
Defined.

(** X30. On a list in use, whenever [Visit] of a node other than the
    largest [uint64] has returned, [Visited] of that node answers true and
    the node is below the capacity. *)
Theorem Visit_marks_node l node l' :
  in_use l -> is_uint64 node -> node < max_uint64 ->
  Visit node l = Some l' ->
  node < Len l' /\ Visited node l' = Some (true, l').
Proof.
  intros Hu Hn Hlt HV.
  destruct (Visit_returns_marks node l l' Hu Hn Hlt HV) as (_ & _ & HL & Hv).
  split; assumption.
Qed.

Lemma Visit_marks_node_witness :
  in_use (mkListSet [1; 0; 0; 0; 0]) /\ is_uint64 10 /\ 10 < max_uint64 /\
  Visit 10 (mkListSet [1; 0; 0; 0; 0])
  = Some (mkListSet (1 :: <[10%nat := 1]> (replicate 1033 0))) /\
  10 < Len (mkListSet (1 :: <[10%nat := 1]> (replicate 1033 0))) /\
  Visited 10 (mkListSet (1 :: <[10%nat := 1]> (replicate 1033 0)))
  = Some (true, mkListSet (1 :: <[10%nat := 1]> (replicate 1033 0))).
Proof.
  assert (Hu : in_use (mkListSet [1; 0; 0; 0; 0]))
    by (unfold in_use, max_int; simpl; lia).
  assert (Hn : is_uint64 10) by (unfold is_uint64; lia).
  assert (Hlt : 10 < max_uint64) by (unfold max_uint64; lia).
  assert (HV : Visit 10 (mkListSet [1; 0; 0; 0; 0])
               = Some (mkListSet (1 :: <[10%nat := 1]> (replicate 1033 0))))
    by (vm_compute; reflexivity).
  split; [exact Hu |]. split; [exact Hn |]. split; [exact Hlt |].
  split; [exact HV |].
  exact (Visit_marks_node _ 10 _ Hu Hn Hlt HV).
Defined.

(** * Properties of the class helper of the sorter *)

Lemma getDataType_declared_name GetClass DS DI className property :
  declared_name property ->
  Sorter.getDataType GetClass DS DI className property =
  c ← GetClass className; Sorter.find_DataType (Sorter.Properties c) property.
Proof.
  intros (H1 & H2 & H3 & H4). unfold Sorter.getDataType.
  destruct (decide (property = "id" \/ property = "_id")%string) as [[? | ?] |];
    [contradiction | contradiction |].
  destruct (decide (property = "_creationTimeUnix"
                    \/ property = "_lastUpdateTimeUnix")%string) as [[? | ?] |];
    [contradiction | contradiction |].
  reflexivity.
Qed.

Lemma find_DataType_first pre p post property :
  Forall (fun q => Sorter.Name q <> property) pre ->
  Sorter.Name p = property ->
  Sorter.find_DataType ((Some <$> pre) ++ Some p :: post) property
  = Some (Sorter.DataType p).
Proof.
  intros Hpre Hp. induction Hpre as [| q pre Hq _ IH]; cbn.
  - destruct (decide (Sorter.Name p = property)); [reflexivity | contradiction].
  - destruct (decide (Sorter.Name q = property)); [contradiction | exact IH].
Qed.

Lemma find_DataType_absent ps property :
  Forall (fun q => Sorter.Name q <> property) ps ->
  Sorter.find_DataType (Some <$> ps) property = Some [].
Proof.
  intros Hps. induction Hps as [| q ps Hq _ IH]; cbn.
  - reflexivity.
  - destruct (decide (Sorter.Name q = property)); [contradiction | exact IH].
Qed.

(** X12. [getOrder] returns "desc" for the string "desc" alone; for every
    other string, "asc" included, it returns "asc"; so it returns one of
    the two and is idempotent. *)
Theorem getOrder_asc_or_desc order :
  (Sorter.getOrder order = "desc"%string <-> order = "desc"%string) /\
  (order <> "desc"%string -> Sorter.getOrder order = "asc"%string) /\
  Sorter.getOrder (Sorter.getOrder order) = Sorter.getOrder order.
Proof.
  unfold Sorter.getOrder.
  destruct (decide (order = "asc" \/ order = "desc")%string) as [[-> | ->] | Hn].
  - repeat split; try reflexivity; intros H; discriminate.
  - repeat split; try reflexivity. intros H. contradiction.
  - repeat split; try reflexivity.
    + intros H. discriminate.
    + intros ->. exfalso. apply Hn. right. reflexivity.
Qed.

(** X13. For the property names "id" and "_id", [getDataType] returns the
    one type [DataTypeString], and for "_creationTimeUnix" and
    "_lastUpdateTimeUnix" the one type [DataTypeInt], whatever the schema
    holds: the class may be missing, or may declare a property of that
    name with other types. *)
Theorem getDataType_reserved_names GetClass DS DI className property :
  ((property = "id" \/ property = "_id")%string ->
   Sorter.getDataType GetClass DS DI className property = Some [DS]) /\
  ((property = "_creationTimeUnix" \/ property = "_lastUpdateTimeUnix")%string ->
   Sorter.getDataType GetClass DS DI className property = Some [DI]).
Proof.
  unfold Sorter.getDataType. split.
  - intros H.
    destruct (decide (property = "id" \/ property = "_id")%string);
      [reflexivity | contradiction].
  - intros H.
    destruct (decide (property = "id" \/ property = "_id")%string) as [[-> | ->] |].
    + destruct H; discriminate.
    + destruct H; discriminate.
    + destruct (decide (property = "_creationTimeUnix"
                        \/ property = "_lastUpdateTimeUnix")%string);
        [reflexivity | contradiction].
Qed.

(** X14. For every other property name, [getDataType] returns the types of
    the first property of the class that has the name; the properties
    after it are not looked at. *)
Theorem getDataType_first_declared GetClass DS DI className property c pre p post :
  declared_name property ->
  GetClass className = Some c ->
  Sorter.Properties c = (Some <$> pre) ++ Some p :: post ->
  Forall (fun q => Sorter.Name q <> property) pre ->
  Sorter.Name p = property ->
  Sorter.getDataType GetClass DS DI className property
  = Some (Sorter.DataType p).
Proof.
  intros Hd Hc Hps Hpre Hp.
  rewrite getDataType_declared_name by exact Hd.
  rewrite Hc. cbn [mbind option_bind]. rewrite Hps.
  apply find_DataType_first; assumption.
Qed.

Lemma getDataType_first_declared_witness :
  declared_name "age" /\
  (fun _ : string => Some person) "Person"%string = Some person /\
  Sorter.Properties person
  = (Some <$> [person_name]) ++ Some person_age :: [Some person_age_again; None] /\
  Forall (fun q => Sorter.Name q <> "age"%string) [person_name] /\
  Sorter.Name person_age = "age"%string /\
  Sorter.getDataType (fun _ => Some person) "string" "int" "Person" "age"
  = Some (Sorter.DataType person_age).
Proof.
  assert (Hd : declared_name "age") by (repeat split; discriminate).
  assert (Hpre : Forall (fun q => Sorter.Name q <> "age"%string) [person_name])
    by (repeat constructor; discriminate).
  split; [exact Hd |]. split; [reflexivity |]. split; [reflexivity |].
  split; [exact Hpre |]. split; [reflexivity |].
  exact (getDataType_first_declared (fun _ => Some person) "string" "int"
           "Person" "age" person [person_name] person_age
           [Some person_age_again; None] Hd eq_refl eq_refl Hpre eq_refl).
Defined.

(** X15. For every other property name, [getDataType] returns nil when the
    class declares no property of the name, and panics when the schema has
    no class of the name given. *)
Theorem getDataType_undeclared GetClass DS DI className property :
  declared_name property ->
  (GetClass className = None ->
   Sorter.getDataType GetClass DS DI className property = None) /\
  (forall c ps, GetClass className = Some c ->
                Sorter.Properties c = Some <$> ps ->
                Forall (fun q => Sorter.Name q <> property) ps ->
                Sorter.getDataType GetClass DS DI className property = Some []).
Proof.
  intros Hd. rewrite getDataType_declared_name by exact Hd. split.
  - intros ->. reflexivity.
  - intros c ps -> Hps Hall. cbn [mbind option_bind]. rewrite Hps.
    apply find_DataType_absent. exact Hall.
Qed.

Lemma getDataType_undeclared_witness :
  declared_name "age" /\
  Sorter.getDataType (fun _ => None) "string" "int" "Person" "age" = None /\
  Sorter.getDataType
    (fun _ => Some (Sorter.mkClass [Some (Sorter.mkProperty "name" ["string"%string])]))
    "string" "int" "Person" "age" = Some [].
Proof.
  assert (Hd : declared_name "age") by (repeat split; discriminate).
  split; [exact Hd |].
  split.
  - exact (proj1 (getDataType_undeclared (fun _ => None) "string" "int"
                    "Person" "age" Hd) eq_refl).
  - refine (proj2 (getDataType_undeclared _ "string" "int" "Person" "age" Hd)
              (Sorter.mkClass [Some (Sorter.mkProperty "name" ["string"%string])])
              [Sorter.mkProperty "name" ["string"%string]] eq_refl eq_refl _).
    repeat constructor. discriminate.
Defined.

(** * Properties of the removal of references *)

Lemma other_beacons_all b rs :
  Forall (fun r => Objects.Beacon r <> b) rs -> other_beacons b rs = rs.
Proof.
  intros H. unfold other_beacons. induction H as [| r rs Hr _ IH].
  - reflexivity.
  - rewrite filter_cons_True by exact Hr. rewrite IH. reflexivity.
Qed.

Lemma other_beacons_Forall b rs :
  Forall (fun r => Objects.Beacon r <> b) (other_beacons b rs).
Proof.
  apply Forall_forall. intros r Hr. unfold other_beacons in Hr.
  apply list_elem_of_filter in Hr as [Hr _]. exact Hr.
Qed.

Lemma other_beacons_shorter b rs :
  Exists (fun r => Objects.Beacon r = b) rs ->
  (length (other_beacons b rs) < length rs)%nat.
Proof.
  intros H. apply Exists_exists in H as (r & Hin & Hr).
  unfold other_beacons. eapply length_filter_lt; [exact Hin |].
  intros Hne. apply Hne. exact Hr.
Qed.

Lemma no_beacon_Forall b rs :
  ~ Exists (fun r => Objects.Beacon r = b) rs ->
  Forall (fun r => Objects.Beacon r <> b) rs.
Proof.
  intros H. apply Forall_forall. intros r Hin Hr.
  apply H. apply Exists_exists. exists r. split; assumption.
Qed.

Lemma keep_other_beacons_fmap rs rf : forall acc,
  Objects.keep_other_beacons (Some <$> rs) (Some rf) acc
  = Some (acc ++ (Some <$> other_beacons (Objects.Beacon rf) rs)).
Proof.
  unfold other_beacons.
  induction rs as [| r rs IH]; intros acc.
  - cbn. rewrite app_nil_r. reflexivity.
  - rewrite fmap_cons. cbn [Objects.keep_other_beacons mbind option_bind].
    destruct (decide (Objects.Beacon r <> Objects.Beacon rf)) as [Hne | He].
    + rewrite IH. rewrite filter_cons_True by exact Hne.
      rewrite fmap_cons, <- app_assoc. reflexivity.
    + rewrite IH. rewrite filter_cons_False by exact He. reflexivity.
Qed.

Lemma keep_other_beacons_returns refs ref : forall acc newrefs,
  Objects.keep_other_beacons refs ref acc = Some newrefs ->
  refs = [] \/ exists rf rs, ref = Some rf /\ refs = Some <$> rs.
Proof.
  induction refs as [| r refs IH]; intros acc newrefs H.
  - left. reflexivity.
  - right. cbn [Objects.keep_other_beacons] in H.
    destruct r as [r0 |]; cbn [mbind option_bind] in H; [| discriminate].
    destruct ref as [rf |]; cbn [mbind option_bind] in H; [| discriminate].
    exists rf.
    destruct (decide (Objects.Beacon r0 <> Objects.Beacon rf));
      apply IH in H as [-> | (rf' & rs & Hrf & ->)];
      solve [ exists [r0]; split; reflexivity
            | exists (r0 :: rs); split; reflexivity ].
Qed.

Lemma Forall_is_Some_fmap {A : Type} (l : list (option A)) :
  Forall is_Some l -> exists xs, l = Some <$> xs.
Proof.
  induction 1 as [| o l [x ->] _ [xs ->]].
  - exists []. reflexivity.
  - exists (x :: xs). reflexivity.
Qed.

(** [removeReference] on a property that holds references, none of them
    a nil pointer. *)
Lemma removeReference_refs m prop rs rf :
  m !! prop = Some (Objects.VRefs (Some <$> rs)) ->
  Objects.removeReference (Objects.IMap (Some m)) prop (Some rf) =
  Some (bool_decide (Exists (fun r => Objects.Beacon r = Objects.Beacon rf) rs),
        ""%string,
        Objects.IMap (Some (<[prop := Objects.VRefs
                               (Some <$> other_beacons (Objects.Beacon rf) rs)]> m))).
Proof.
  intros Hm. unfold Objects.removeReference. rewrite Hm.
  rewrite keep_other_beacons_fmap. cbn [mbind option_bind app].
  rewrite !length_fmap. do 3 f_equal.
  destruct (decide (Exists (fun r => Objects.Beacon r = Objects.Beacon rf) rs))
    as [He | Hn].
  - rewrite bool_decide_eq_true_2 by exact He.
    apply other_beacons_shorter in He.
    replace (length rs =? length (other_beacons (Objects.Beacon rf) rs))%nat
      with false by (symmetry; apply Nat.eqb_neq; lia).
    reflexivity.
  - rewrite bool_decide_eq_false_2 by exact Hn.
    rewrite other_beacons_all by (apply no_beacon_Forall; exact Hn).
    rewrite Nat.eqb_refl. reflexivity.
Qed.

(** X16. When the property of the object holds a list of references,
    [removeReference] removes every reference with the beacon of [ref]
    and keeps the others in their order; no other property of the object
    changes; and [ok] says whether a reference had the beacon. *)
Theorem removeReference_removes_beacon m prop rs rf :
  m !! prop = Some (Objects.VRefs (Some <$> rs)) ->
  exists m',
    Objects.removeReference (Objects.IMap (Some m)) prop (Some rf) =
    Some (bool_decide (Exists (fun r => Objects.Beacon r = Objects.Beacon rf) rs),
          ""%string, Objects.IMap (Some m')) /\
    m' !! prop = Some (Objects.VRefs
                         (Some <$> other_beacons (Objects.Beacon rf) rs)) /\
    Forall (fun r => Objects.Beacon r <> Objects.Beacon rf)
           (other_beacons (Objects.Beacon rf) rs) /\
    forall other, other <> prop -> m' !! other = m !! other.
Proof.
  intros Hm. eexists. split; [apply removeReference_refs; exact Hm |].
  split; [apply lookup_insert_eq |].
  split; [apply other_beacons_Forall |].
  intros other Hne. apply lookup_insert_ne. congruence.
Qed.

Lemma removeReference_removes_beacon_witness :
  friends !! "friends"%string
  = Some (Objects.VRefs (Some <$> [ref_a; ref_b; ref_b_again])) /\
  exists m',
    Objects.removeReference (Objects.IMap (Some friends)) "friends" (Some ref_b) =
    Some (bool_decide (Exists (fun r => Objects.Beacon r = Objects.Beacon ref_b)
                              [ref_a; ref_b; ref_b_again]),
          ""%string, Objects.IMap (Some m')) /\
    m' !! "friends"%string
    = Some (Objects.VRefs
              (Some <$> other_beacons (Objects.Beacon ref_b)
                          [ref_a; ref_b; ref_b_again])) /\
    Forall (fun r => Objects.Beacon r <> Objects.Beacon ref_b)
           (other_beacons (Objects.Beacon ref_b) [ref_a; ref_b; ref_b_again]) /\
    forall other, other <> "friends"%string -> m' !! other = friends !! other.
Proof.
  assert (Hm : friends !! "friends"%string
               = Some (Objects.VRefs (Some <$> [ref_a; ref_b; ref_b_again])))
    by (vm_compute; reflexivity).
  split; [exact Hm |].
  exact (removeReference_removes_beacon friends "friends"
           [ref_a; ref_b; ref_b_again] ref_b Hm).
Defined.

(** What a call of [removeReference] that returns has found. *)
Lemma removeReference_cases obj prop ref ok msg obj' :
  Objects.removeReference obj prop ref = Some (ok, msg, obj') ->
  (ok = false /\ obj' = obj /\
   forall m refs, obj = Objects.IMap (Some m) ->
                  m !! prop = Some (Objects.VRefs refs) -> refs = []) \/
  (exists m rs rf,
      obj = Objects.IMap (Some m) /\ ref = Some rf /\ msg = ""%string /\
      m !! prop = Some (Objects.VRefs (Some <$> rs)) /\
      ok = bool_decide (Exists (fun r => Objects.Beacon r = Objects.Beacon rf) rs) /\
      obj' = Objects.IMap
               (Some (<[prop := Objects.VRefs
                         (Some <$> other_beacons (Objects.Beacon rf) rs)]> m))).
Proof.
  intros H. destruct obj as [| [m |] |]; try discriminate.
  - unfold Objects.removeReference in H.
    destruct (m !! prop) as [[| refs | typ] |] eqn:Hm.
    + inversion H. left. split; [reflexivity |]. split; [reflexivity |].
      intros m0 refs0 Hm0. inversion Hm0. subst m0. congruence.
    + destruct (Objects.keep_other_beacons refs ref []) as [newrefs |] eqn:Hk;
        cbn [mbind option_bind] in H; [| discriminate].
      destruct (keep_other_beacons_returns refs ref [] newrefs Hk)
        as [-> | (rf & rs & -> & ->)].
      * cbn in Hk. inversion Hk. subst newrefs. inversion H.
        left. split; [reflexivity |]. split.
        -- f_equal. f_equal. apply insert_id. exact Hm.
        -- intros m0 refs0 Hm0. inversion Hm0. subst m0. congruence.
      * right. exists m, rs, rf.
        assert (HR := removeReference_refs m prop rs rf Hm).
        unfold Objects.removeReference in HR. rewrite Hm, Hk in HR.
        cbn [mbind option_bind] in HR. rewrite H in HR. inversion HR.
        repeat split; reflexivity || assumption.
    + inversion H. left. split; [reflexivity |]. split; [reflexivity |].
      intros m0 refs0 Hm0. inversion Hm0. subst m0. congruence.
    + inversion H. left. split; [reflexivity |]. split; [reflexivity |].
      intros m0 refs0 Hm0. inversion Hm0. subst m0. congruence.
  - cbn in H. inversion H. left. split; [reflexivity |]. split; [reflexivity |].
    intros m0 refs0 Hm0. discriminate.
Qed.

(** X17. Whenever [removeReference] returns: when it reports an error
    the object is untouched; when it reports [ok = true] the properties of
    the object have changed; and when it reports [ok = false] they are as
    they were, provided the property does not hold an empty list of
    references.  (An empty list is replaced by a new empty list, which is
    another value when the old one was the nil slice.) *)
Theorem removeReference_ok_reports_change obj prop ref ok msg obj' :
  Objects.removeReference obj prop ref = Some (ok, msg, obj') ->
  (msg <> ""%string -> obj' = obj) /\
  (ok = true -> obj' <> obj) /\
  ((forall m, obj = Objects.IMap (Some m) ->
              m !! prop <> Some (Objects.VRefs [])) ->
   ok = false -> obj' = obj).
Proof.
  intros H.
  destruct (removeReference_cases _ _ _ _ _ _ H)
    as [(-> & -> & _) | (m & rs & rf & -> & -> & -> & Hm & -> & ->)].
  - split; [reflexivity |]. split; [discriminate | reflexivity].
  - split; [intros Hmsg; contradiction |].
    destruct (decide (Exists (fun r => Objects.Beacon r = Objects.Beacon rf) rs))
      as [He | Hn].
    + rewrite bool_decide_eq_true_2 by exact He.
      split; [| discriminate].
      intros _ Heq. inversion Heq as [Hmap].
      assert (Hl : (<[prop := Objects.VRefs
                      (Some <$> other_beacons (Objects.Beacon rf) rs)]> m) !! prop
                   = m !! prop) by (rewrite Hmap; reflexivity).
      rewrite lookup_insert_eq, Hm in Hl. inversion Hl as [Hrs].
      apply (f_equal length) in Hrs. rewrite !length_fmap in Hrs.
      apply other_beacons_shorter in He. lia.
    + rewrite bool_decide_eq_false_2 by exact Hn.
      split; [discriminate |].
      intros _ _. rewrite other_beacons_all by (apply no_beacon_Forall; exact Hn).
      f_equal. f_equal. apply insert_id. exact Hm.
Qed.

Lemma removeReference_ok_reports_change_witness :
  Objects.removeReference (Objects.IMap (Some friends)) "friends" (Some ref_b)
  = Some (true, ""%string,
          Objects.IMap (Some (<["friends"%string := Objects.VRefs [Some ref_a]]>
                                friends))) /\
  (""%string <> ""%string ->
   Objects.IMap (Some (<["friends"%string := Objects.VRefs [Some ref_a]]> friends))
   = Objects.IMap (Some friends)) /\
  (true = true ->
   Objects.IMap (Some (<["friends"%string := Objects.VRefs [Some ref_a]]> friends))
   <> Objects.IMap (Some friends)) /\
  ((forall m, Objects.IMap (Some friends) = Objects.IMap (Some m) ->
              m !! "friends"%string <> Some (Objects.VRefs [])) ->
   true = false ->
   Objects.IMap (Some (<["friends"%string := Objects.VRefs [Some ref_a]]> friends))
   = Objects.IMap (Some friends)).
Proof.
  assert (H : Objects.removeReference (Objects.IMap (Some friends)) "friends"
                (Some ref_b)
              = Some (true, ""%string,
                      Objects.IMap
                        (Some (<["friends"%string := Objects.VRefs [Some ref_a]]>
                                 friends)))).
  { rewrite (removeReference_refs friends "friends" [ref_a; ref_b; ref_b_again] ref_b)
      by (vm_compute; reflexivity).
    reflexivity. }
  split; [exact H |].
  exact (removeReference_ok_reports_change _ _ _ _ _ _ H).
Defined.

(** X18. [removeReference] is idempotent: after a call that returned, the
    same call again returns [ok = false], the same message, and the
    object as the first call left it. *)
Theorem removeReference_twice obj prop ref ok msg obj' :
  Objects.removeReference obj prop ref = Some (ok, msg, obj') ->
  Objects.removeReference obj' prop ref = Some (false, msg, obj').
Proof.
  intros H.
  destruct (removeReference_cases _ _ _ _ _ _ H)
    as [(-> & -> & _) | (m & rs & rf & -> & -> & -> & Hm & -> & ->)].
  - exact H.
  - rewrite (removeReference_refs _ prop (other_beacons (Objects.Beacon rf) rs) rf)
      by apply lookup_insert_eq.
    rewrite bool_decide_eq_false_2.
    + rewrite other_beacons_all by apply other_beacons_Forall.
      rewrite insert_insert_eq. reflexivity.
    + intros He. apply Exists_exists in He as (r & Hin & Hr).
      pose proof (other_beacons_Forall (Objects.Beacon rf) rs) as Hall.
      rewrite Forall_forall in Hall. exact (Hall r Hin Hr).
Qed.

Lemma removeReference_twice_witness :
  Objects.removeReference (Objects.IMap (Some friends)) "friends" (Some ref_b)
  = Some (true, ""%string,
          Objects.IMap (Some (<["friends"%string := Objects.VRefs [Some ref_a]]>
                                friends))) /\
  Objects.removeReference
    (Objects.IMap (Some (<["friends"%string := Objects.VRefs [Some ref_a]]> friends)))
    "friends" (Some ref_b)
  = Some (false, ""%string,
          Objects.IMap (Some (<["friends"%string := Objects.VRefs [Some ref_a]]>
                                friends))).
Proof.
  assert (H : Objects.removeReference (Objects.IMap (Some friends)) "friends"
                (Some ref_b)
              = Some (true, ""%string,
                      Objects.IMap
                        (Some (<["friends"%string := Objects.VRefs [Some ref_a]]>
                                 friends)))).
  { rewrite (removeReference_refs friends "friends" [ref_a; ref_b; ref_b_again] ref_b)
      by (vm_compute; reflexivity).
    reflexivity. }
  split; [exact H |].
  exact (removeReference_twice _ _ _ _ _ _ H).
Defined.

(** X19. [removeReference] returns exactly when the properties of the
    object are a map and, if the property holds a list of references that
    is not empty, neither [ref] nor any reference of the list is a nil
    pointer; otherwise it panics. *)
Theorem removeReference_returns_iff obj prop ref :
  is_Some (Objects.removeReference obj prop ref) <->
  exists mo, obj = Objects.IMap mo /\
    forall m refs, mo = Some m -> m !! prop = Some (Objects.VRefs refs) ->
                   refs = [] \/ (is_Some ref /\ Forall is_Some refs).
Proof.
  split.
  - intros [[[ok msg] obj'] H].
    destruct obj as [| mo |]; try discriminate.
    exists mo. split; [reflexivity |]. intros m refs -> Hm.
    unfold Objects.removeReference in H. rewrite Hm in H.
    destruct (Objects.keep_other_beacons refs ref []) as [newrefs |] eqn:Hk;
      cbn [mbind option_bind] in H; [| discriminate].
    destruct (keep_other_beacons_returns refs ref [] newrefs Hk)
      as [-> | (rf & rs & -> & ->)]; [left; reflexivity |].
    right. split; [eexists; reflexivity |].
    apply Forall_fmap, Forall_forall. intros r _. eexists. reflexivity.
  - intros (mo & -> & Hmo). destruct mo as [m |]; [| eexists; reflexivity].
    unfold Objects.removeReference.
    destruct (m !! prop) as [[| refs | typ] |] eqn:Hm;
      try (eexists; reflexivity).
    destruct (Hmo m refs eq_refl Hm) as [-> | [[rf ->] Hall]].
    + eexists. reflexivity.
    + destruct (Forall_is_Some_fmap refs Hall) as [rs ->].
      rewrite keep_other_beacons_fmap. eexists. reflexivity.
Qed.

Lemma first_with_beacon_found pre r post p : forall i,
  Forall (fun q => Objects.Beacon q <> Objects.Beacon p) pre ->
  Objects.Beacon r = Objects.Beacon p ->
  Objects.first_with_beacon ((Some <$> pre) ++ Some r :: post) (Some p) i
  = Some (Some (i + length pre)%nat).
Proof.
  induction pre as [| q pre IH]; intros i Hpre Hr.
  - cbn. destruct (decide (Objects.Beacon r <> Objects.Beacon p));
      [contradiction |]. do 2 f_equal. lia.
  - apply Forall_cons in Hpre as [Hq Hpre]. rewrite fmap_cons.
    cbn [app Objects.first_with_beacon mbind option_bind].
    destruct (decide (Objects.Beacon q <> Objects.Beacon p)); [| contradiction].
    rewrite IH by assumption. cbn [length]. do 2 f_equal. lia.
Qed.

Lemma first_with_beacon_none rs p : forall i,
  Forall (fun q => Objects.Beacon q <> Objects.Beacon p) rs ->
  Objects.first_with_beacon (Some <$> rs) (Some p) i = Some None.
Proof.
  induction rs as [| q rs IH]; intros i Hrs.
  - reflexivity.
  - apply Forall_cons in Hrs as [Hq Hrs]. rewrite fmap_cons.
    cbn [Objects.first_with_beacon mbind option_bind].
    destruct (decide (Objects.Beacon q <> Objects.Beacon p)); [| contradiction].
    apply IH. exact Hrs.
Qed.

Lemma drop_length_cons {A : Type} (l : list A) : forall x,
  exists y, drop (length l) (x :: l) = [y].
Proof.
  induction l as [| a l IH]; intros x.
  - exists x. reflexivity.
  - cbn [length drop]. apply IH.
Qed.

(** [removeRef] when a reference has the beacon: the slice returned and
    the array behind it. *)
Lemma removeRef_found pre r post p :
  Forall (fun q => Objects.Beacon q <> Objects.Beacon p) pre ->
  Objects.Beacon r = Objects.Beacon p ->
  Objects.removeRef ((Some <$> pre) ++ Some r :: post) (Some p)
  = Some ((Some <$> pre) ++ post, (Some <$> pre) ++ post ++ [None]).
Proof.
  intros Hpre Hr. unfold Objects.removeRef.
  rewrite first_with_beacon_found by assumption.
  cbn [mbind option_bind Nat.add].
  set (pre' := Some <$> pre).
  assert (Hlen : length pre = length pre') by (unfold pre'; rewrite length_fmap; reflexivity).
  rewrite Hlen.
  rewrite take_app_length.
  rewrite drop_app_length.
  replace (drop (S (length pre')) (pre' ++ Some r :: post)) with post.
  2:{ rewrite (cons_middle (Some r) pre' post), app_assoc.
      rewrite drop_app_length'; [reflexivity |].
      rewrite length_app. cbn [length]. lia. }
  unfold slice_copy.
  rewrite (take_ge post) by (cbn [length]; lia).
  destruct (drop_length_cons post (Some r)) as [y ->].
  replace (length (pre' ++ Some r :: post) - 1)%nat
    with (length pre' + (length post + 0))%nat
    by (rewrite length_app; cbn [length]; lia).
  rewrite insert_app_r, insert_app_r. cbn [insert list_insert].
  f_equal. f_equal.
  rewrite app_assoc. apply take_app_length'.
  rewrite length_app. lia.
Qed.

Lemma removeRef_not_found rs p :
  Forall (fun q => Objects.Beacon q <> Objects.Beacon p) rs ->
  Objects.removeRef (Some <$> rs) (Some p) = Some (Some <$> rs, Some <$> rs).
Proof.
  intros Hrs. unfold Objects.removeRef.
  rewrite first_with_beacon_none by exact Hrs. reflexivity.
Qed.

(** Either no reference has the beacon, or there is a first one. *)
Lemma first_beacon_split b (rs : list Objects.SingleRef) :
  Forall (fun q => Objects.Beacon q <> b) rs \/
  exists pre r post, rs = pre ++ r :: post /\
                     Forall (fun q => Objects.Beacon q <> b) pre /\
                     Objects.Beacon r = b.
Proof.
  induction rs as [| q rs IH].
  - left. constructor.
  - destruct (decide (Objects.Beacon q = b)) as [Hq | Hq].
    + right. exists [], q, rs. repeat split; [constructor | exact Hq].
    + destruct IH as [Hall | (pre & r & post & -> & Hpre & Hr)].
      * left. constructor; assumption.
      * right. exists (q :: pre), r, post.
        repeat split; [constructor; assumption | exact Hr].
Qed.

(** X20. [removeRef] removes the first reference with the beacon of
    [property] and no other: the references before and after it are
    returned in their order (those after it are not looked at, so they
    may be nil pointers or have the beacon as well), and the array given
    holds the same references followed by nil in its last place. *)
Theorem removeRef_removes_first pre r post p :
  Forall (fun q => Objects.Beacon q <> Objects.Beacon p) pre ->
  Objects.Beacon r = Objects.Beacon p ->
  Objects.removeRef ((Some <$> pre) ++ Some r :: post) (Some p)
  = Some ((Some <$> pre) ++ post, (Some <$> pre) ++ post ++ [None]).
Proof. apply removeRef_found. Qed.

Lemma removeRef_removes_first_witness :
  Forall (fun q => Objects.Beacon q <> Objects.Beacon ref_b) [ref_a] /\
  Objects.Beacon ref_b = Objects.Beacon ref_b /\
  Objects.removeRef ((Some <$> [ref_a]) ++ Some ref_b :: [Some ref_b_again; None])
                    (Some ref_b)
  = Some ((Some <$> [ref_a]) ++ [Some ref_b_again; None],
          (Some <$> [ref_a]) ++ [Some ref_b_again; None] ++ [None]).
Proof.
  assert (Hpre : Forall (fun q => Objects.Beacon q <> Objects.Beacon ref_b) [ref_a])
    by (repeat constructor; discriminate).
  split; [exact Hpre |]. split; [reflexivity |].
  exact (removeRef_removes_first [ref_a] ref_b [Some ref_b_again; None] ref_b
           Hpre eq_refl).
Defined.

(** X21. When no reference has the beacon of [property], [removeRef]
    returns the slice it was given, and the array is untouched.  With a
    nil [property] it returns the empty slice for the empty slice, and
    panics for every other one. *)
Theorem removeRef_nothing_to_remove rs p :
  Forall (fun q => Objects.Beacon q <> Objects.Beacon p) rs ->
  Objects.removeRef (Some <$> rs) (Some p) = Some (Some <$> rs, Some <$> rs) /\
  Objects.removeRef [] None = Some ([], []) /\
  forall r refs, Objects.removeRef (r :: refs) None = None.
Proof.
  intros Hrs. split; [apply removeRef_not_found; exact Hrs |].
  split; [reflexivity |].
  intros r refs. unfold Objects.removeRef. cbn [Objects.first_with_beacon].
  destruct r; reflexivity.
Qed.

Lemma removeRef_nothing_to_remove_witness :
  Forall (fun q => Objects.Beacon q <> Objects.Beacon ref_a) [ref_b; ref_b_again] /\
  Objects.removeRef (Some <$> [ref_b; ref_b_again]) (Some ref_a)
  = Some (Some <$> [ref_b; ref_b_again], Some <$> [ref_b; ref_b_again]) /\
  Objects.removeRef [] None = Some ([], []) /\
  forall r refs, Objects.removeRef (r :: refs) None = None.
Proof.
  assert (H : Forall (fun q => Objects.Beacon q <> Objects.Beacon ref_a)
                     [ref_b; ref_b_again])
    by (repeat constructor; discriminate).
  split; [exact H |].
  exact (removeRef_nothing_to_remove [ref_b; ref_b_again] ref_a H).
Defined.

(** X22. When the property of the map holds a list of references, none of
    them nil, [removeReferenceFromClassProps] returns the map with the
    first reference that has the beacon removed from the list of the
    property, or with the list as it was when none has it; the other
    properties are as before. *)
Theorem removeReferenceFromClassProps_removes_first m propertyName rs p :
  m !! propertyName = Some (Objects.VRefs (Some <$> rs)) ->
  exists rs',
    Objects.removeReferenceFromClassProps
      (Objects.IMap (Some m)) propertyName (Some p)
    = Some (inr (<[propertyName := Objects.VRefs (Some <$> rs')]> m)) /\
    ((Forall (fun q => Objects.Beacon q <> Objects.Beacon p) rs /\ rs' = rs) \/
     exists pre r post,
       rs = pre ++ r :: post /\ rs' = pre ++ post /\
       Forall (fun q => Objects.Beacon q <> Objects.Beacon p) pre /\
       Objects.Beacon r = Objects.Beacon p).
Proof.
  intros Hm. unfold Objects.removeReferenceFromClassProps.
  cbn [mbind option_bind]. rewrite Hm. cbn [mbind option_bind].
  rewrite Hm. cbn [default from_option id].
  destruct (first_beacon_split (Objects.Beacon p) rs)
    as [Hall | (pre & r & post & -> & Hpre & Hr)].
  - exists rs. rewrite removeRef_not_found by exact Hall.
    split; [reflexivity |]. left. split; [exact Hall | reflexivity].
  - exists (pre ++ post). rewrite fmap_app, fmap_cons.
    rewrite removeRef_found by assumption.
    cbn [mbind option_bind fst]. rewrite fmap_app.
    split; [reflexivity |]. right. exists pre, r, post.
    repeat split; assumption.
Qed.

Lemma removeReferenceFromClassProps_removes_first_witness :
  friends !! "friends"%string
  = Some (Objects.VRefs (Some <$> [ref_a; ref_b; ref_b_again])) /\
  exists rs',
    Objects.removeReferenceFromClassProps
      (Objects.IMap (Some friends)) "friends" (Some ref_b)
    = Some (inr (<["friends"%string := Objects.VRefs (Some <$> rs')]> friends)) /\
    ((Forall (fun q => Objects.Beacon q <> Objects.Beacon ref_b)
             [ref_a; ref_b; ref_b_again] /\ rs' = [ref_a; ref_b; ref_b_again]) \/
     exists pre r post,
       [ref_a; ref_b; ref_b_again] = pre ++ r :: post /\ rs' = pre ++ post /\
       Forall (fun q => Objects.Beacon q <> Objects.Beacon ref_b) pre /\
       Objects.Beacon r = Objects.Beacon ref_b).
Proof.
  assert (Hm : friends !! "friends"%string
               = Some (Objects.VRefs (Some <$> [ref_a; ref_b; ref_b_again])))
    by (vm_compute; reflexivity).
  split; [exact Hm |].
  exact (removeReferenceFromClassProps_removes_first friends "friends"
           [ref_a; ref_b; ref_b_again] ref_b Hm).
Defined.

(** X23. When the map has no entry for the property,
    [removeReferenceFromClassProps] returns the map with an entry for it
    that holds the empty list, and for nil properties the map of this one
    entry, also with a nil [property]; on a nil map it panics; and when
    the entry holds nil or a value of another type it returns an error
    that carries the value. *)
Theorem removeReferenceFromClassProps_no_list m propertyName property :
  (m !! propertyName = None ->
   Objects.removeReferenceFromClassProps (Objects.IMap (Some m)) propertyName property
   = Some (inr (<[propertyName := Objects.VRefs []]> m))) /\
  Objects.removeReferenceFromClassProps Objects.INil propertyName property
  = Some (inr {[propertyName := Objects.VRefs []]}) /\
  Objects.removeReferenceFromClassProps (Objects.IMap None) propertyName property
  = None /\
  (forall v, m !! propertyName = Some v ->
             (forall refs, v <> Objects.VRefs refs) ->
             Objects.removeReferenceFromClassProps
               (Objects.IMap (Some m)) propertyName property
             = Some (inl (Objects.ErrInternal
                            "expected list for reference props, but got %T" v))).
Proof.
  unfold Objects.removeReferenceFromClassProps.
  split; [| split; [| split]].
  - intros Hm. cbn [mbind option_bind]. rewrite Hm. cbn [mbind option_bind].
    rewrite lookup_insert_eq. cbn [default from_option id].
    replace (Objects.removeRef [] property) with (Some ([] : Objects.MultipleRef, [] : Objects.MultipleRef))
      by (destruct property; reflexivity).
    cbn [mbind option_bind fst]. rewrite insert_insert_eq. reflexivity.
  - cbn [mbind option_bind]. rewrite lookup_empty. cbn [mbind option_bind].
    rewrite lookup_insert_eq. cbn [default from_option id].
    replace (Objects.removeRef [] property) with (Some ([] : Objects.MultipleRef, [] : Objects.MultipleRef))
      by (destruct property; reflexivity).
    cbn [mbind option_bind fst]. rewrite insert_insert_eq. reflexivity.
  - reflexivity.
  - intros v Hm Hv. cbn [mbind option_bind]. rewrite Hm. cbn [mbind option_bind].
    rewrite Hm. cbn [default from_option id].
    destruct v as [| refs | typ]; [reflexivity | | reflexivity].
    exfalso. apply (Hv refs). reflexivity.
Qed.

(** * Properties of the aggregation of dates *)

Lemma addRows_snoc rows row a :
  addRows (rows ++ [row]) a
  = Aggregator.addRow (fst row) (snd row) (addRows rows a).
Proof. unfold addRows. rewrite foldl_app. reflexivity. Qed.

Lemma live_snoc rows row :
  live (rows ++ [row]) = live rows ++ (if decide (snd row = 0) then [] else [row]).
Proof.
  unfold live. rewrite filter_app. f_equal.
  destruct (decide (snd row = 0)) as [H0 | Hn].
  - rewrite filter_cons_False by (intros H; apply H; exact H0). reflexivity.
  - rewrite filter_cons_True by exact Hn. reflexivity.
Qed.

Lemma total_app rows rows' : total (rows ++ rows') = total rows + total rows'.
Proof.
  unfold total. induction rows as [| row rows IH]; cbn [app foldr].
  - reflexivity.
  - rewrite IH. lia.
Qed.

Lemma total_single row : total [row] = snd row.
Proof. unfold total. cbn [foldr]. lia. Qed.

Lemma total_live rows : total (live rows) = total rows.
Proof.
  unfold live. induction rows as [| row rows IH].
  - reflexivity.
  - destruct (decide (snd row = 0)) as [H0 | Hn].
    + rewrite filter_cons_False by (intros H; apply H; exact H0).
      rewrite IH. unfold total. cbn [foldr]. rewrite H0. reflexivity.
    + rewrite filter_cons_True by exact Hn.
      unfold total in *. cbn [foldr]. rewrite IH. reflexivity.
Qed.

Lemma addRow_zero ts a : Aggregator.addRow ts 0 a = a.
Proof. reflexivity. Qed.

Lemma addRow_live ts n a :
  n <> 0 ->
  Aggregator.addRow ts n a =
  Aggregator.mkDateAggregator
    (wrap64 (Aggregator.count a + n))
    (if Aggregator.maxCount a <? n then n else Aggregator.maxCount a)
    (if Aggregator.epochNano ts <? Aggregator.epochNano (Aggregator.min a)
     then ts else Aggregator.min a)
    (if Aggregator.epochNano (Aggregator.max a) <? Aggregator.epochNano ts
     then ts else Aggregator.max a)
    (if Aggregator.maxCount a <? n then ts else Aggregator.mode a)
    (Aggregator.pairs a ++ [Aggregator.timestampCountPair.mk ts n]).
Proof.
  intros Hn. unfold Aggregator.addRow.
  destruct (Z.eqb_spec n 0); [contradiction | reflexivity].
Qed.

Lemma addRows_count rows :
  Aggregator.count (addRows rows Aggregator.newDateAggregator)
  = wrap64 (total rows).
Proof.
  induction rows as [| row rows IH] using rev_ind.
  - reflexivity.
  - rewrite addRows_snoc, total_app.
    destruct (decide (snd row = 0)) as [H0 | Hn].
    + rewrite total_single, H0, addRow_zero, IH. f_equal. lia.
    + rewrite addRow_live by exact Hn. cbn [Aggregator.count].
      rewrite IH, total_single. unfold wrap64.
      rewrite Zplus_mod_idemp_l. reflexivity.
Qed.

Lemma addRows_pairs rows :
  Aggregator.pairs (addRows rows Aggregator.newDateAggregator)
  = pair_of_row <$> live rows.
Proof.
  induction rows as [| row rows IH] using rev_ind.
  - reflexivity.
  - rewrite addRows_snoc, live_snoc.
    destruct (decide (snd row = 0)) as [H0 | Hn].
    + rewrite H0, addRow_zero, IH, app_nil_r. reflexivity.
    + rewrite addRow_live by exact Hn. cbn [Aggregator.pairs].
      rewrite IH, fmap_app. reflexivity.
Qed.

(** X24. After any rows added to a new aggregator, [count] is the sum of
    their counts modulo [2^64], [Count] is that number read as an
    [int64], and [pairs] holds the rows with a count other than 0 and
    only them, in the order in which they were added. *)
Theorem addRows_count_and_pairs rows :
  Aggregator.count (addRows rows Aggregator.newDateAggregator)
  = wrap64 (total rows) /\
  Aggregator.Count (addRows rows Aggregator.newDateAggregator)
  = wrap_int (wrap64 (total rows)) /\
  Aggregator.pairs (addRows rows Aggregator.newDateAggregator)
  = pair_of_row <$> live rows.
Proof.
  split; [apply addRows_count |].
  split; [unfold Aggregator.Count; rewrite addRows_count; reflexivity |].
  apply addRows_pairs.
Qed.

Lemma median_rank_bounds n : 1 <= n -> 1 <= median_rank n <= n.
Proof.
  intros Hn. unfold median_rank.
  destruct (Z.eqb_spec (n mod 2) 0); Z.div_mod_to_equations; lia.
Qed.

Lemma median_loop_finds ps : forall index median,
  Forall (fun row => 0 < snd row) ps ->
  1 <= index <= total ps -> total ps < 2 ^ 64 ->
  exists pre row post,
    ps = pre ++ row :: post /\
    total pre < index <= total pre + snd row /\
    Aggregator.median_loop (pair_of_row <$> ps) index median = fst row.
Proof.
  induction ps as [| row ps IH]; intros index median Hpos Hidx Hmax.
  - unfold total in Hidx. cbn [foldr] in Hidx. lia.
  - apply Forall_cons in Hpos as [Hrow Hpos].
    assert (Ht : total (row :: ps) = snd row + total ps) by reflexivity.
    rewrite Ht in Hidx, Hmax.
    assert (Hps : 0 <= total ps).
    { clear -Hpos. induction Hpos as [| q ps Hq _ IHp]; [reflexivity |].
      change (total (q :: ps)) with (snd q + total ps). lia. }
    rewrite fmap_cons. cbn [Aggregator.median_loop pair_of_row
                              Aggregator.timestampCountPair.count
                              Aggregator.timestampCountPair.value].
    destruct (Z.leb_spec index (snd row)) as [Hle | Hgt].
    + exists [], row, ps. split; [reflexivity |].
      split; [unfold total; cbn [foldr]; lia | reflexivity].
    + rewrite wrap64_small by lia.
      destruct (IH (index - snd row) median Hpos) as (pre & r & post & -> & Hr & Hm);
        [lia | lia |].
      exists (row :: pre), r, post. split; [reflexivity |].
      split; [| exact Hm].
      change (total (row :: pre)) with (snd row + total pre). lia.
Qed.

(** X25. When the counts of the rows are not negative and their sum [n]
    is positive and below [2^64], [Median] returns the timestamp of the
    row that holds the object of rank [n/2] ([n] even) or [n/2 + 1] ([n]
    odd), counting the objects row by row in the order in which the rows
    were added; rows with the count 0 hold no object. *)
Theorem Median_is_row_of_median_rank rows :
  Forall (fun row => 0 <= snd row) rows ->
  0 < total rows -> total rows < 2 ^ 64 ->
  exists pre row post,
    live rows = pre ++ row :: post /\
    total pre < median_rank (total rows) <= total pre + snd row /\
    Aggregator.Median (addRows rows Aggregator.newDateAggregator)
    = Aggregator.rfc3339 (fst row).
Proof.
  intros Hpos Hn Hmax.
  assert (Hlive : Forall (fun row => 0 < snd row) (live rows)).
  { apply Forall_forall. intros row Hin. unfold live in Hin.
    apply list_elem_of_filter in Hin as [Hne Hin].
    rewrite Forall_forall in Hpos. specialize (Hpos row Hin). lia. }
  destruct (median_loop_finds (live rows) (median_rank (total rows))
              Aggregator.zero_timestamp Hlive)
    as (pre & row & post & Hsplit & Hrank & Hm).
  { rewrite total_live. apply median_rank_bounds. lia. }
  { rewrite total_live. exact Hmax. }
  exists pre, row, post. split; [exact Hsplit |]. split; [exact Hrank |].
  unfold Aggregator.Median. rewrite addRows_count, addRows_pairs.
  rewrite (wrap64_small (total rows)) by lia.
  replace (if total rows mod 2 =? 0 then total rows / 2
           else wrap64 (total rows / 2 + 1))
    with (median_rank (total rows)).
  - rewrite Hm. reflexivity.
  - unfold median_rank. destruct (total rows mod 2 =? 0); [reflexivity |].
    symmetry. apply wrap64_small. Z.div_mod_to_equations. lia.
Qed.

Lemma Median_is_row_of_median_rank_witness :
  Forall (fun row => 0 <= snd row) some_rows /\
  0 < total some_rows /\ total some_rows < 2 ^ 64 /\
  exists pre row post,
    live some_rows = pre ++ row :: post /\
    total pre < median_rank (total some_rows) <= total pre + snd row /\
    Aggregator.Median (addRows some_rows Aggregator.newDateAggregator)
    = Aggregator.rfc3339 (fst row).
Proof.
  assert (Hpos : Forall (fun row => 0 <= snd row) some_rows)
    by (repeat constructor; simpl; lia).
  assert (Hn : 0 < total some_rows) by (vm_compute; reflexivity).
  assert (Hmax : total some_rows < 2 ^ 64) by (vm_compute; reflexivity).
  split; [exact Hpos |]. split; [exact Hn |]. split; [exact Hmax |].
  exact (Median_is_row_of_median_rank some_rows Hpos Hn Hmax).
Defined.

(** The minimum after rows added to a new aggregator: either still the
    initial one, every row that counts being at [max_int], or the
    timestamp of a row that counts and is not above any other. *)
Lemma addRows_min rows :
  (Aggregator.min (addRows rows Aggregator.newDateAggregator)
   = Aggregator.min Aggregator.newDateAggregator /\
   Forall (fun q => max_int <= Aggregator.epochNano (fst q)) (live rows)) \/
  (exists row, row ∈ live rows /\
     Aggregator.min (addRows rows Aggregator.newDateAggregator) = fst row /\
     Aggregator.epochNano (fst row) < max_int /\
     Forall (fun q => Aggregator.epochNano (fst row)
                      <= Aggregator.epochNano (fst q)) (live rows)).
Proof.
  induction rows as [| row rows IH] using rev_ind.
  - left. split; [reflexivity | constructor].
  - rewrite addRows_snoc, live_snoc.
    destruct (decide (snd row = 0)) as [H0 | Hn].
    + rewrite H0, addRow_zero, app_nil_r. exact IH.
    + rewrite addRow_live by exact Hn. cbn [Aggregator.min].
      destruct IH as [[Hmin Hall] | (r & Hin & Hmin & Hlt & Hall)]; rewrite Hmin.
      * cbn [Aggregator.newDateAggregator Aggregator.min Aggregator.epochNano].
        destruct (Z.ltb_spec (Aggregator.epochNano (fst row)) max_int) as [Hr | Hr].
        -- right. exists row. split; [apply elem_of_app; right; constructor |].
           split; [reflexivity |]. split; [exact Hr |].
           apply Forall_app. split.
           ++ eapply Forall_impl; [exact Hall |]. cbn. intros q Hq. lia.
           ++ constructor; [lia | constructor].
        -- left. split; [reflexivity |].
           apply Forall_app. split; [exact Hall |].
           constructor; [exact Hr | constructor].
      * destruct (Z.ltb_spec (Aggregator.epochNano (fst row))
                             (Aggregator.epochNano (fst r))) as [Hr | Hr].
        -- right. exists row. split; [apply elem_of_app; right; constructor |].
           split; [reflexivity |]. split; [lia |].
           apply Forall_app. split.
           ++ eapply Forall_impl; [exact Hall |]. cbn. intros q Hq. lia.
           ++ constructor; [lia | constructor].
        -- right. exists r. split; [apply elem_of_app; left; exact Hin |].
           split; [reflexivity |]. split; [exact Hlt |].
           apply Forall_app. split; [exact Hall |].
           constructor; [exact Hr | constructor].
Qed.

(** The same for the maximum, whose initial value is the zero timestamp,
    at 0 nanoseconds. *)
Lemma addRows_max rows :
  (Aggregator.max (addRows rows Aggregator.newDateAggregator)
   = Aggregator.zero_timestamp /\
   Forall (fun q => Aggregator.epochNano (fst q) <= 0) (live rows)) \/
  (exists row, row ∈ live rows /\
     Aggregator.max (addRows rows Aggregator.newDateAggregator) = fst row /\
     0 < Aggregator.epochNano (fst row) /\
     Forall (fun q => Aggregator.epochNano (fst q)
                      <= Aggregator.epochNano (fst row)) (live rows)).
Proof.
  induction rows as [| row rows IH] using rev_ind.
  - left. split; [reflexivity | constructor].
  - rewrite addRows_snoc, live_snoc.
    destruct (decide (snd row = 0)) as [H0 | Hn].
    + rewrite H0, addRow_zero, app_nil_r. exact IH.
    + rewrite addRow_live by exact Hn. cbn [Aggregator.max].
      destruct IH as [[Hmax Hall] | (r & Hin & Hmax & Hlt & Hall)]; rewrite Hmax.
      * cbn [Aggregator.zero_timestamp Aggregator.epochNano].
        destruct (Z.ltb_spec 0 (Aggregator.epochNano (fst row))) as [Hr | Hr].
        -- right. exists row. split; [apply elem_of_app; right; constructor |].
           split; [reflexivity |]. split; [exact Hr |].
           apply Forall_app. split.
           ++ eapply Forall_impl; [exact Hall |]. cbn. intros q Hq. lia.
           ++ constructor; [lia | constructor].
        -- left. split; [reflexivity |].
           apply Forall_app. split; [exact Hall |].
           constructor; [exact Hr | constructor].
      * destruct (Z.ltb_spec (Aggregator.epochNano (fst r))
                             (Aggregator.epochNano (fst row))) as [Hr | Hr].
        -- right. exists row. split; [apply elem_of_app; right; constructor |].
           split; [reflexivity |]. split; [lia |].
           apply Forall_app. split.
           ++ eapply Forall_impl; [exact Hall |]. cbn. intros q Hq. lia.
           ++ constructor; [lia | constructor].
        -- right. exists r. split; [apply elem_of_app; left; exact Hin |].
           split; [reflexivity |]. split; [exact Hlt |].
           apply Forall_app. split; [exact Hall |].
           constructor; [exact Hr | constructor].
Qed.

(** X26. When some row with a count other than 0 has a timestamp below
    [max_int] nanoseconds, [Min] is the string of a row with a count
    other than 0 whose timestamp is not above that of any other such
    row. *)
Theorem Min_is_least rows :
  Exists (fun q => Aggregator.epochNano (fst q) < max_int) (live rows) ->
  exists row, row ∈ live rows /\
    Aggregator.Min (addRows rows Aggregator.newDateAggregator)
    = Aggregator.rfc3339 (fst row) /\
    Forall (fun q => Aggregator.epochNano (fst row)
                     <= Aggregator.epochNano (fst q)) (live rows).
Proof.
  intros Hex.
  destruct (addRows_min rows) as [[_ Hall] | (row & Hin & Hmin & _ & Hall)].
  - exfalso. apply Exists_exists in Hex as (q & Hq & Hlt).
    rewrite Forall_forall in Hall. specialize (Hall q Hq). cbn in Hall. lia.
  - exists row. split; [exact Hin |]. split; [| exact Hall].
    unfold Aggregator.Min. rewrite Hmin. reflexivity.
Qed.

Lemma Min_is_least_witness :
  Exists (fun q => Aggregator.epochNano (fst q) < max_int) (live some_rows) /\
  exists row, row ∈ live some_rows /\
    Aggregator.Min (addRows some_rows Aggregator.newDateAggregator)
    = Aggregator.rfc3339 (fst row) /\
    Forall (fun q => Aggregator.epochNano (fst row)
                     <= Aggregator.epochNano (fst q)) (live some_rows).
Proof.
  assert (H : Exists (fun q => Aggregator.epochNano (fst q) < max_int)
                     (live some_rows)).
  { apply Exists_exists. exists (day1, 2). split.
    - apply list_elem_of_filter. split; [simpl; lia | constructor].
    - vm_compute. reflexivity. }
  split; [exact H |]. exact (Min_is_least some_rows H).
Defined.

(** X27. When some row with a count other than 0 has a timestamp above 0
    nanoseconds (after 1970-01-01T00:00:00Z), [Max] is the string of a
    row with a count other than 0 whose timestamp is not below that of
    any other such row. *)
Theorem Max_is_greatest rows :
  Exists (fun q => 0 < Aggregator.epochNano (fst q)) (live rows) ->
  exists row, row ∈ live rows /\
    Aggregator.Max (addRows rows Aggregator.newDateAggregator)
    = Aggregator.rfc3339 (fst row) /\
    Forall (fun q => Aggregator.epochNano (fst q)
                     <= Aggregator.epochNano (fst row)) (live rows).
Proof.
  intros Hex.
  destruct (addRows_max rows) as [[_ Hall] | (row & Hin & Hmax & _ & Hall)].
  - exfalso. apply Exists_exists in Hex as (q & Hq & Hlt).
    rewrite Forall_forall in Hall. specialize (Hall q Hq). cbn in Hall. lia.
  - exists row. split; [exact Hin |]. split; [| exact Hall].
    unfold Aggregator.Max. rewrite Hmax. reflexivity.
Qed.

Lemma Max_is_greatest_witness :
  Exists (fun q => 0 < Aggregator.epochNano (fst q)) (live some_rows) /\
  exists row, row ∈ live some_rows /\
    Aggregator.Max (addRows some_rows Aggregator.newDateAggregator)
    = Aggregator.rfc3339 (fst row) /\
    Forall (fun q => Aggregator.epochNano (fst q)
                     <= Aggregator.epochNano (fst row)) (live some_rows).
Proof.
  assert (H : Exists (fun q => 0 < Aggregator.epochNano (fst q)) (live some_rows)).
  { apply Exists_exists. exists (day1, 2). split.
    - apply list_elem_of_filter. split; [simpl; lia | constructor].
    - vm_compute. reflexivity. }
  split; [exact H |]. exact (Max_is_greatest some_rows H).
Defined.

(** X28. When no row with a count other than 0 has a timestamp above 0
    nanoseconds, [Max] is the empty string, the string of the zero
    timestamp: dates at or before 1970-01-01T00:00:00Z are never the
    maximum. *)
Theorem Max_not_after_epoch rows :
  Forall (fun q => Aggregator.epochNano (fst q) <= 0) (live rows) ->
  Aggregator.Max (addRows rows Aggregator.newDateAggregator) = ""%string.
Proof.
  intros Hall.
  destruct (addRows_max rows) as [[Hmax _] | (row & Hin & _ & Hlt & _)].
  - unfold Aggregator.Max. rewrite Hmax. reflexivity.
  - exfalso. rewrite Forall_forall in Hall. specialize (Hall row Hin).
    cbn in Hall. lia.
Qed.

Lemma Max_not_after_epoch_witness :
  Forall (fun q => Aggregator.epochNano (fst q) <= 0) (live [(before_epoch, 5)]) /\
  Aggregator.Max (addRows [(before_epoch, 5)] Aggregator.newDateAggregator)
  = ""%string.
Proof.
  assert (H : Forall (fun q => Aggregator.epochNano (fst q) <= 0)
                     (live [(before_epoch, 5)])).
  { apply Forall_forall. intros q Hq.
    apply list_elem_of_filter in Hq as [_ Hq].
    apply list_elem_of_singleton in Hq as ->. vm_compute. discriminate. }
  split; [exact H |]. exact (Max_not_after_epoch [(before_epoch, 5)] H).
Defined.

(** The mode after rows added to a new aggregator: the first row with
    the greatest count. *)
Lemma addRows_mode rows :
  Forall (fun q => 0 <= snd q) rows ->
  (live rows = [] /\
   Aggregator.mode (addRows rows Aggregator.newDateAggregator)
   = Aggregator.zero_timestamp /\
   Aggregator.maxCount (addRows rows Aggregator.newDateAggregator) = 0) \/
  (exists pre row post,
     live rows = pre ++ row :: post /\
     Aggregator.mode (addRows rows Aggregator.newDateAggregator) = fst row /\
     Aggregator.maxCount (addRows rows Aggregator.newDateAggregator) = snd row /\
     Forall (fun q => snd q < snd row) pre /\
     Forall (fun q => snd q <= snd row) post).
Proof.
  induction rows as [| row rows IH] using rev_ind; intros Hpos.
  - left. repeat split.
  - apply Forall_app in Hpos as [Hpos Hrow].
    apply Forall_cons in Hrow as [Hrow _].
    specialize (IH Hpos).
    rewrite addRows_snoc, live_snoc.
    destruct (decide (snd row = 0)) as [H0 | Hn].
    + rewrite H0, addRow_zero, app_nil_r. exact IH.
    + rewrite addRow_live by exact Hn.
      cbn [Aggregator.mode Aggregator.maxCount].
      destruct IH as [(Hl & Hmode & Hmax) | (pre & r & post & Hl & Hmode & Hmax & Hpre & Hpost)];
        rewrite Hl, Hmax.
      * replace (0 <? snd row) with true by (symmetry; apply Z.ltb_lt; lia).
        right. exists [], row, []. repeat split; constructor.
      * right. destruct (Z.ltb_spec (snd r) (snd row)) as [Hlt | Hge].
        -- exists (pre ++ r :: post), row, []. split; [reflexivity |].
           split; [reflexivity |]. split; [reflexivity |].
           split; [| constructor].
           apply Forall_app. split.
           ++ eapply Forall_impl; [exact Hpre |]. cbn. intros q Hq. lia.
           ++ constructor; [exact Hlt |].
              eapply Forall_impl; [exact Hpost |]. cbn. intros q Hq. lia.
        -- exists pre, r, (post ++ [row]).
           split; [rewrite <- app_assoc; reflexivity |].
           split; [exact Hmode |]. split; [reflexivity |].
           split; [exact Hpre |].
           apply Forall_app. split; [exact Hpost |].
           constructor; [exact Hge | constructor].
Qed.

(** X29. When the counts of the rows are not negative and one of them is
    not 0, [Mode] is the string of the first row with the greatest
    count: the rows before it have smaller counts, the rows after it
    counts that are not greater. *)
Theorem Mode_is_first_with_greatest_count rows :
  Forall (fun q => 0 <= snd q) rows -> live rows <> [] ->
  exists pre row post,
    live rows = pre ++ row :: post /\
    Aggregator.Mode (addRows rows Aggregator.newDateAggregator)
    = Aggregator.rfc3339 (fst row) /\
    Forall (fun q => snd q < snd row) pre /\
    Forall (fun q => snd q <= snd row) post.
Proof.
  intros Hpos Hne.
  destruct (addRows_mode rows Hpos)
    as [(Hl & _) | (pre & row & post & Hl & Hmode & _ & Hpre & Hpost)];
    [contradiction |].
  exists pre, row, post. split; [exact Hl |].
  split; [unfold Aggregator.Mode; rewrite Hmode; reflexivity |].
  split; assumption.
Qed.

Lemma Mode_is_first_with_greatest_count_witness :
  Forall (fun q => 0 <= snd q) some_rows /\ live some_rows <> [] /\
  exists pre row post,
    live some_rows = pre ++ row :: post /\
    Aggregator.Mode (addRows some_rows Aggregator.newDateAggregator)
    = Aggregator.rfc3339 (fst row) /\
    Forall (fun q => snd q < snd row) pre /\
    Forall (fun q => snd q <= snd row) post.
Proof.
  assert (Hpos : Forall (fun q => 0 <= snd q) some_rows)
    by (repeat constructor; simpl; lia).
  assert (Hne : live some_rows <> []) by (vm_compute; discriminate).
  split; [exact Hpos |]. split; [exact Hne |].
  exact (Mode_is_first_with_greatest_count some_rows Hpos Hne).
Defined.

(** The examples, computed: of the objects of [some_rows], eight in all,
    the fourth is in the second row that counts. *)
Example some_rows_results :
  let a := addRows some_rows Aggregator.newDateAggregator in
  (Aggregator.Count a, Aggregator.Min a, Aggregator.Max a,
   Aggregator.Mode a, Aggregator.Median a)
  = (8, Aggregator.rfc3339 day1, Aggregator.rfc3339 day2,
     Aggregator.rfc3339 day2, Aggregator.rfc3339 day2).
Proof. vm_compute. reflexivity. Qed.
